(** * weather-gpt-app: the two API routes and the location parser of the page

    A shallow embedding of
      - the weather route, in its two versions ([Part000]: city+state with
        optional zip, or zip only; [Part001]: city+state only),
      - the suggestion route [src/app/api/suggest/route.ts] ([Suggest]),
      - the free-text location parsing of [handleSubmit] in
        [src/app/page.tsx] ([Page]),
    together with the statements checked against them.

    Modelling conventions.
      - A JavaScript string is a [string] whose characters are its code
        units, so the strings of the model are those with every code unit
        below 256. On them [trim], the classes of the regular expressions
        and [toLowerCase] are as ECMAScript has them (NO-BREAK SPACE is
        white space; À-Ö and Ø-Þ have lower-case forms). [toUpperCase]
        turns [ß] into [SS] and takes [µ] and [ÿ] to code units above 255:
        its result is an [option], [None] for a text that leaves the strings
        of the model.
      - [Date.now()] and the millisecond arithmetic on it are in [Z].
      - A value that may be [undefined] is an [option]; [None] is [undefined].
      - The module-level [Map] of each route is a [gmap] threaded through the
        handler; the handler returns the response, the map afterwards and the
        list of effects it performed (upstream fetches and cache writes). *)

From Stdlib Require Import ZArith Ascii String DecimalString.
From stdpp Require Import base decidable option list gmap strings.

Local Open Scope Z_scope.
Set Warnings "-register-all".

(** ** Characters *)

Module Char.

Definition code (c : ascii) : nat := nat_of_ascii c.

Definition between (lo hi : nat) (c : ascii) : bool :=
  (Nat.leb lo (code c) && Nat.leb (code c) hi)%bool.

(** [\d] *)
Definition is_digit : ascii → bool := between 48 57.
(** [[A-Z]] *)
Definition is_upper : ascii → bool := between 65 90.
Definition is_lower : ascii → bool := between 97 122.

(** [\s], and the characters removed by [String.prototype.trim], below
    256: TAB, LF, VT, FF, CR, SPACE and NO-BREAK SPACE. *)
Definition is_space (c : ascii) : bool :=
  (between 9 13 c || Nat.eqb (code c) 32 || Nat.eqb (code c) 160)%bool.

(** The complement of [.]: LF and CR. *)
Definition is_line_terminator (c : ascii) : bool :=
  (Nat.eqb (code c) 10 || Nat.eqb (code c) 13)%bool.

Definition is_char (d : ascii) (c : ascii) : bool := Ascii.eqb d c.

(** The letters with a lower-case form: A-Z, À-Ö and Ø-Þ. *)
Definition has_lower (c : ascii) : bool :=
  (is_upper c || between 192 214 c || between 216 222 c)%bool.

(** The letters whose upper-case form is one code unit below 256: a-z,
    à-ö and ø-þ. *)
Definition has_upper (c : ascii) : bool :=
  (is_lower c || between 224 246 c || between 248 254 c)%bool.

(** The letters below 256: A-Z, a-z, ª, µ, º, À-Ö, Ø-ö and ø-ÿ. *)
Definition is_letter (c : ascii) : bool :=
  (is_upper c || is_lower c || Nat.eqb (code c) 170 || Nat.eqb (code c) 181
   || Nat.eqb (code c) 186 || between 192 214 c || between 216 246 c
   || between 248 255 c)%bool.

(** [c.toLowerCase()] for a one-character string. *)
Definition to_lower (c : ascii) : ascii :=
  if has_lower c then ascii_of_nat (code c + 32) else c.

(** [c.toUpperCase()] for a one-character string: [ß] (223) gives [SS];
    [µ] (181) and [ÿ] (255) give U+039C and U+0178, one code unit each
    and none of them a string of the model. *)
Definition to_upper (c : ascii) : option string :=
  if has_upper c then Some (String (ascii_of_nat (code c - 32)) EmptyString)
  else if Nat.eqb (code c) 223 then Some "SS"%string
  else if (Nat.eqb (code c) 181 || Nat.eqb (code c) 255)%bool then None
  else Some (String c EmptyString).

(** [c.toUpperCase().length] *)
Definition upper_length (c : ascii) : nat :=
  if Nat.eqb (code c) 223 then 2%nat else 1%nat.

(** Two characters that differ at most in letter case. *)
Definition eq_nocase (c d : ascii) : bool := Ascii.eqb (to_lower c) (to_lower d).

End Char.

(** ** Strings: the [String.prototype] methods the routes use *)

Module Str.

Fixpoint map (f : ascii → ascii) (s : string) : string :=
  match s with
  | EmptyString => EmptyString
  | String c s' => String (f c) (map f s')
  end.

Definition toLowerCase : string → string := map Char.to_lower.

(** [s.toUpperCase()], when it is a string of the model. *)
Fixpoint toUpperCase (s : string) : option string :=
  match s with
  | EmptyString => Some EmptyString
  | String c s' =>
      match Char.to_upper c, toUpperCase s' with
      | Some u, Some r => Some (u ++ r)%string
      | _, _ => None
      end
  end.

(** [s.toUpperCase().length] *)
Fixpoint toUpperCase_length (s : string) : nat :=
  match s with
  | EmptyString => 0%nat
  | String c s' => (Char.upper_length c + toUpperCase_length s')%nat
  end.

Fixpoint drop_while (p : ascii → bool) (s : string) : string :=
  match s with
  | EmptyString => EmptyString
  | String c s' => if p c then drop_while p s' else s
  end.

Definition trimStart (s : string) : string := drop_while Char.is_space s.
Fixpoint trimEnd (s : string) : string :=
  match s with
  | EmptyString => EmptyString
  | String c s' =>
      match trimEnd s' with
      | EmptyString => if Char.is_space c then EmptyString else String c EmptyString
      | r => String c r
      end
  end.
Definition trim (s : string) : string := trimEnd (trimStart s).

Fixpoint take (n : nat) (s : string) : string :=
  match n, s with
  | S n', String c s' => String c (take n' s')
  | _, _ => EmptyString
  end.

Fixpoint drop (n : nat) (s : string) : string :=
  match n, s with
  | S n', String _ s' => drop n' s'
  | _, _ => s
  end.

Fixpoint starts_with (p s : string) : bool :=
  match p, s with
  | EmptyString, _ => true
  | String a p', String b s' => Ascii.eqb a b && starts_with p' s'
  | String _ _, EmptyString => false
  end.

Fixpoint all (p : ascii → bool) (s : string) : bool :=
  match s with
  | EmptyString => true
  | String c s' => p c && all p s'
  end.

(** [s.lastIndexOf(c)]: the greatest index holding [c], or [-1]. *)
Fixpoint lastIndexOf (c : ascii) (s : string) : Z :=
  match s with
  | EmptyString => -1
  | String d s' =>
      let i := lastIndexOf c s' in
      if 0 <=? i then i + 1 else if Ascii.eqb c d then 0 else -1
  end.

(** [s.slice(0, i)] and [s.slice(i)] for an index [0 <= i]. *)
Definition slice_to (i : Z) (s : string) : string := take (Z.to_nat i) s.
Definition slice_from (i : Z) (s : string) : string := drop (Z.to_nat i) s.

Definition len (s : string) : Z := Z.of_nat (String.length s).

Definition is_empty (s : string) : bool :=
  match s with EmptyString => true | _ => false end.

(** Two strings of the same length whose characters differ at most in
    letter case. *)
Fixpoint eq_nocase (s t : string) : bool :=
  match s, t with
  | EmptyString, EmptyString => true
  | String a s', String b t' => Char.eq_nocase a b && eq_nocase s' t'
  | _, _ => false
  end.

(** Decimal rendering of a number inside a template literal. *)
Definition of_Z (n : Z) : string := NilZero.string_of_int (Z.to_int n).

(** [s.indexOf(needle)]: the least index at which [needle] occurs, or [-1]. *)
Fixpoint indexOf (needle s : string) : Z :=
  if starts_with needle s then 0
  else
    match s with
    | EmptyString => -1
    | String _ s' => let i := indexOf needle s' in if 0 <=? i then i + 1 else -1
    end.

(** [s.slice(a, b)] for indices [0 <= a <= b]. *)
Definition slice (a b : Z) (s : string) : string :=
  take (Z.to_nat (b - a)) (drop (Z.to_nat a) s).

End Str.

(** ** Regular expressions

    The patterns of the source are all anchored at both ends, so [test] is
    whole-string matching; it is computed with Brzozowski derivatives and
    related below to the usual language of a regular expression. *)

Module Regex.

Inductive t : Type :=
| Void
| Eps
| Class (p : ascii → bool)
| Seq (r1 r2 : t)
| Alt (r1 r2 : t)
| Star (r : t).

Definition Plus (r : t) : t := Seq r (Star r).
Definition Opt (r : t) : t := Alt r Eps.
Fixpoint Times (n : nat) (r : t) : t :=
  match n with O => Eps | S n' => Seq r (Times n' r) end.

Fixpoint nullable (r : t) : bool :=
  match r with
  | Void => false
  | Eps => true
  | Class _ => false
  | Seq r1 r2 => nullable r1 && nullable r2
  | Alt r1 r2 => nullable r1 || nullable r2
  | Star _ => true
  end.

Fixpoint deriv (c : ascii) (r : t) : t :=
  match r with
  | Void => Void
  | Eps => Void
  | Class p => if p c then Eps else Void
  | Seq r1 r2 =>
      if nullable r1 then Alt (Seq (deriv c r1) r2) (deriv c r2)
      else Seq (deriv c r1) r2
  | Alt r1 r2 => Alt (deriv c r1) (deriv c r2)
  | Star r1 => Seq (deriv c r1) (Star r1)
  end.

(** [/^r$/.test(s)] *)
Fixpoint test (r : t) (s : string) : bool :=
  match s with
  | EmptyString => nullable r
  | String c s' => test (deriv c r) s'
  end.

(** The language of a regular expression. *)
Inductive lang : t → string → Prop :=
| lang_eps : lang Eps EmptyString
| lang_class p c : p c = true → lang (Class p) (String c EmptyString)
| lang_seq r1 r2 s1 s2 : lang r1 s1 → lang r2 s2 → lang (Seq r1 r2) (s1 +:+ s2)
| lang_alt_l r1 r2 s : lang r1 s → lang (Alt r1 r2) s
| lang_alt_r r1 r2 s : lang r2 s → lang (Alt r1 r2) s
| lang_star_nil r : lang (Star r) EmptyString
| lang_star_cons r c s1 s2 :
    lang r (String c s1) → lang (Star r) s2 → lang (Star r) (String c s1 +:+ s2).

End Regex.

(** ** JSON values and the JavaScript operations on them *)

Inductive json : Type :=
| JNull
| JBool (b : bool)
| JNum (n : Z)
| JStr (s : string)
| JArr (items : list json)
| JObj (fields : list (string * json)).

Module Js.

(** Own property [k] of an object literal. *)
Fixpoint lookup (k : string) (fields : list (string * json)) : option json :=
  match fields with
  | [] => None
  | (k', v) :: rest => if String.eqb k k' then Some v else lookup k rest
  end.

(** [!!v] *)
Definition truthy (v : option json) : bool :=
  match v with
  | None | Some JNull => false
  | Some (JBool b) => b
  | Some (JNum n) => negb (n =? 0)
  | Some (JStr s) => negb (Str.is_empty s)
  | Some (JArr _) | Some (JObj _) => true
  end.

(** [v.k] for a value [v] that is neither [null] nor [undefined] and a
    name [k] that no prototype defines ([zip], [city], [state], [choices],
    [message], [content]): only an object can hold it. *)
Definition prop (v : json) (k : string) : option json :=
  match v with
  | JObj fields => lookup k fields
  | _ => None
  end.

(** [v?.k] *)
Definition opt_prop (v : option json) (k : string) : option json :=
  match v with
  | None | Some JNull => None
  | Some j => prop j k
  end.

(** [v?.[0]]: the first element of an array, the first character of a
    string, the property ["0"] of an object. *)
Definition opt_index0 (v : option json) : option json :=
  match v with
  | None | Some JNull => None
  | Some (JArr items) => head items
  | Some (JStr (String c _)) => Some (JStr (String c EmptyString))
  | Some (JObj fields) => lookup "0" fields
  | Some _ => None
  end.

End Js.

(** ** Exceptions, responses, the environment and the upstream service *)

(** What the [catch] clauses tell apart: a [ZodError], a [DOMException]
    named [TimeoutError], and everything else. *)
Inductive exn : Type :=
| ZodError
| TimeoutError
| TypeError
| SyntaxError
| NetworkError.

Record response : Type := Response { status : Z; body : json }.

(** [NextResponse.json(b)] and [NextResponse.json(b, { status })]. *)
Definition NextResponse_json (b : json) : response := Response 200 b.
Definition NextResponse_json_status (b : json) (st : Z) : response := Response st b.

Definition error_body (msg : string) : json := JObj [("error", JStr msg)].

(** [process.env] *)
Record env : Type := Env {
  OPENROUTER_API_KEY : option string;
  NEXT_PUBLIC_APP_URL : option string
}.

(** [!apiKey || apiKey === "your_openrouter_api_key_here"] *)
Definition key_missing (e : env) : bool :=
  match OPENROUTER_API_KEY e with
  | None => true
  | Some k => Str.is_empty k || String.eqb k "your_openrouter_api_key_here"
  end.

Definition referer (e : env) : string :=
  match NEXT_PUBLIC_APP_URL e with
  | Some u => if Str.is_empty u then "https://weather-gpt-app.vercel.app" else u
  | None => "https://weather-gpt-app.vercel.app"
  end.

(** The system prompts are fixed template literals of the source; they are
    named here, not spelled out. *)
Inductive system_prompt : Type :=
| ComprehensiveReportPrompt   (* part_000, lines 74-101 *)
| ConciseReportPrompt         (* part_001, lines 56-64 *)
| AutocompletePrompt.         (* suggest/route.ts, lines 40-57 *)

(** The chat-completion request handed to [fetch]. *)
Record fetch_request : Type := FetchRequest {
  authorization : string;
  http_referer : string;
  model : string;
  system : system_prompt;
  user_content : string;
  max_tokens : Z;
  temperature_tenths : Z;
  timeout_ms : Z
}.

(** How reading the body of a received response ends. *)
Inductive body_outcome : Type :=
| BodyJson (j : json)     (* the body is the JSON text of [j] *)
| BodyNotJson             (* the body is read but is not JSON *)
| BodyTimeout             (* the abort signal fires while reading *)
| BodyFails.              (* the connection breaks while reading *)

(** How the one [fetch] of a request ends. *)
Inductive upstream_outcome : Type :=
| FetchTimeout                                  (* rejects, [TimeoutError] *)
| FetchFails                                    (* rejects, network error *)
| FetchResolves (st : Z) (b : body_outcome).

(** [response.ok] *)
Definition ok (st : Z) : bool := (200 <=? st) && (st <=? 299).

(** [await response.text()] *)
Definition response_text (b : body_outcome) : exn + unit :=
  match b with
  | BodyJson _ | BodyNotJson => inr tt
  | BodyTimeout => inl TimeoutError
  | BodyFails => inl TypeError
  end.

(** [await response.json()] *)
Definition response_json (b : body_outcome) : exn + json :=
  match b with
  | BodyJson j => inr j
  | BodyNotJson => inl SyntaxError
  | BodyTimeout => inl TimeoutError
  | BodyFails => inl TypeError
  end.

(** [data.choices?.[0]?.message?.content]; [data.choices] throws on
    [null]. *)
Definition first_choice_content (data : json) : exn + option json :=
  match data with
  | JNull => inl TypeError
  | _ =>
      inr (Js.opt_prop (Js.opt_prop (Js.opt_index0 (Js.prop data "choices"))
                                    "message") "content")
  end.

(** What the clock and the upstream service do during one request:
    [Date.now()] at the cache lookup, the outcome of the fetch, and
    [Date.now()] at the cache write. *)
Record world : Type := World {
  now_lookup : Z;
  upstream : upstream_outcome;
  now_store : Z
}.

(** The 51 codes of [US_STATES], in the order of the source. *)
Definition US_STATES : list string :=
  [ "AL";"AK";"AZ";"AR";"CA";"CO";"CT";"DE";"FL";"GA";
    "HI";"ID";"IL";"IN";"IA";"KS";"KY";"LA";"ME";"MD";
    "MA";"MI";"MN";"MS";"MO";"MT";"NE";"NV";"NH";"NJ";
    "NM";"NY";"NC";"ND";"OH";"OK";"OR";"PA";"RI";"SC";
    "SD";"TN";"TX";"UT";"VT";"VA";"WA";"WV";"WI";"WY";"DC" ].

(** [US_STATES.has(s)] *)
Definition US_STATES_has (s : string) : bool := existsb (String.eqb s) US_STATES.

(** [/^\d{5}$/] *)
Definition zip_re : Regex.t := Regex.Times 5 (Regex.Class Char.is_digit).

(** ** The in-memory caches and the effects of a request *)

Record entry (A : Type) : Type := Entry { data : A; timestamp : Z }.
Arguments Entry {A} _ _.
Arguments data {A} _.
Arguments timestamp {A} _.

(** [const cached = cache.get(k); cached && now - cached.timestamp < ttl]:
    the payload when the test holds. *)
Definition fresh {A} (ttl now : Z) (cache : gmap string (entry A)) (k : string)
  : option A :=
  match cache !! k with
  | Some cached => if now - timestamp cached <? ttl then Some (data cached) else None
  | None => None
  end.

Inductive effect (A : Type) : Type :=
| Fetch (r : fetch_request)          (* [fetch(...)] was called *)
| CacheSet (k : string) (e : entry A).   (* [cache.set(k, e)] was called *)
Arguments Fetch {A} _.
Arguments CacheSet {A} _ _.

Definition is_fetch {A} (ev : effect A) : bool :=
  match ev with Fetch _ => true | CacheSet _ _ => false end.
Definition is_cache_set {A} (ev : effect A) : bool :=
  match ev with Fetch _ => false | CacheSet _ _ => true end.

(** The number of upstream calls among the effects. *)
Definition upstream_calls {A} (evs : list (effect A)) : nat :=
  length (List.filter is_fetch evs).
Definition cache_writes {A} (evs : list (effect A)) : nat :=
  length (List.filter is_cache_set evs).

(** One handled request. *)
Record run (A : Type) : Type := Run {
  resp : response;
  cache_after : gmap string (entry A);
  effects : list (effect A)
}.
Arguments Run {A} _ _ _.
Arguments resp {A} _.
Arguments cache_after {A} _.
Arguments effects {A} _.

(** The body of a [try] block ends by returning a response or by throwing. *)
Definition attempt (A : Type) : Type :=
  ((exn + response) * gmap string (entry A) * list (effect A))%type.

(** ** The weather route with zip support ([src/unnamed/part_000]) *)

Module Part000.

Definition CACHE_TTL : Z := 15 * 60 * 1000.

(** [cityStateSchema.parse(body)]: the parsed city, the upper-cased state
    and the optional zip. *)
Definition cityStateSchema_parse (body : json)
  : exn + (string * string * option string) :=
  match body with
  | JObj fields =>
      match Js.lookup "city" fields, Js.lookup "state" fields with
      | Some (JStr city), Some (JStr s) =>
          match Str.toUpperCase s with
          | Some state =>
              if (1 <=? Str.len city) && (Str.len city <=? 100) && US_STATES_has state
              then
                match Js.lookup "zip" fields with
                | None => inr (city, state, None)
                | Some (JStr zip) => inr (city, state, Some zip)
                | Some _ => inl ZodError
                end
              else inl ZodError
          | None => inl ZodError   (* a code unit above 255: none of the codes *)
          end
      | _, _ => inl ZodError
      end
  | _ => inl ZodError
  end.

(** [zipOnlySchema.parse(body)] *)
Definition zipOnlySchema_parse (body : json) : exn + string :=
  match body with
  | JObj fields =>
      match Js.lookup "zip" fields with
      | Some (JStr zip) => if Regex.test zip_re zip then inr zip else inl ZodError
      | _ => inl ZodError
      end
  | _ => inl ZodError
  end.

(** Lines 36-46: the location named in the prompt and the cache key. *)
Definition locate (body : json) : exn + (string * string) :=
  match body with
  | JNull => inl TypeError
  | _ =>
      if Js.truthy (Js.prop body "zip") && negb (Js.truthy (Js.prop body "city"))
      then
        match zipOnlySchema_parse body with
        | inl e => inl e
        | inr zip => inr ("zip code " +:+ zip, "zip-" +:+ zip)
        end
      else
        match cityStateSchema_parse body with
        | inl e => inl e
        | inr (city, state, zip) =>
            let has_zip := Js.truthy (JStr <$> zip) in
            let z := default "" zip in
            inr (if has_zip then city +:+ ", " +:+ state +:+ " " +:+ z
                 else city +:+ ", " +:+ state,
                 Str.toLowerCase city +:+ "-" +:+ state
                   +:+ (if has_zip then "-" +:+ z else ""))
        end
  end.

Definition request_for (e : env) (location : string) : fetch_request :=
  {| authorization := "Bearer " +:+ default "" (OPENROUTER_API_KEY e);
     http_referer := referer e;
     model := "openai/gpt-4.1-nano";
     system := ComprehensiveReportPrompt;
     user_content :=
       "Give me a comprehensive weather report for " +:+ location +:+ ".";
     max_tokens := 1000;
     temperature_tenths := 3;
     timeout_ms := 30000 |}.

Definition key_not_configured : response :=
  NextResponse_json_status
    (error_body "OpenRouter API key not configured. Add OPENROUTER_API_KEY to your environment variables.")
    500.
Definition upstream_error (st : Z) : response :=
  NextResponse_json_status
    (error_body ("Weather service returned an error (" +:+ Str.of_Z st
                 +:+ "). Please try again."))
    502.
Definition no_weather_data : response :=
  NextResponse_json_status
    (error_body "No weather data received. Please try again.") 502.
Definition invalid_input : response :=
  NextResponse_json_status
    (error_body "Invalid input. Please provide a valid city/state or a 5-digit US zip code.")
    400.
Definition timed_out : response :=
  NextResponse_json_status
    (error_body "Request timed out. The weather service is taking too long to respond.")
    504.
Definition something_went_wrong : response :=
  NextResponse_json_status
    (error_body "Something went wrong. Please try again.") 500.

Definition report_body (report : json) (cached : bool) : json :=
  JObj [("report", report); ("cached", JBool cached)].

(** Lines 30-136, the [try] block. [req] is the outcome of
    [await request.json()], [None] when the request body is not JSON. *)
Definition POST_try (cache : gmap string (entry json)) (e : env)
    (req : option json) (w : world) : attempt json :=
  match req with
  | None => (inl SyntaxError, cache, [])
  | Some body =>
      match locate body with
      | inl err => (inl err, cache, [])
      | inr (location, cacheKey) =>
          match fresh CACHE_TTL (now_lookup w) cache cacheKey with
          | Some report =>
              (inr (NextResponse_json (report_body report true)), cache, [])
          | None =>
              if key_missing e then (inr key_not_configured, cache, [])
              else
                let called := [Fetch (request_for e location)] in
                match upstream w with
                | FetchTimeout => (inl TimeoutError, cache, called)
                | FetchFails => (inl NetworkError, cache, called)
                | FetchResolves st b =>
                    if negb (ok st) then
                      match response_text b with
                      | inl err => (inl err, cache, called)
                      | inr _ => (inr (upstream_error st), cache, called)
                      end
                    else
                      match response_json b with
                      | inl err => (inl err, cache, called)
                      | inr data =>
                          match first_choice_content data with
                          | inl err => (inl err, cache, called)
                          | inr report =>
                              if negb (Js.truthy report)
                              then (inr no_weather_data, cache, called)
                              else
                                let r := default JNull report in
                                let stored := Entry r (now_store w) in
                                (inr (NextResponse_json (report_body r false)),
                                 <[cacheKey := stored]> cache,
                                 called ++ [CacheSet cacheKey stored])
                          end
                      end
                end
          end
      end
  end.

(** Lines 137-155, the [catch] clause. *)
Definition POST_catch (error : exn) : response :=
  match error with
  | ZodError => invalid_input
  | TimeoutError => timed_out
  | _ => something_went_wrong
  end.

Definition POST (cache : gmap string (entry json)) (e : env)
    (req : option json) (w : world) : run json :=
  match POST_try cache e req w with
  | (inr r, cache', evs) => Run r cache' evs
  | (inl error, cache', evs) => Run (POST_catch error) cache' evs
  end.

End Part000.

(** ** The weather route without zip support ([src/unnamed/part_001]) *)

Module Part001.

Definition CACHE_TTL : Z := 15 * 60 * 1000.

(** [requestSchema.parse(body)]; keys other than [city] and [state] are
    dropped by [z.object]. *)
Definition requestSchema_parse (body : json) : exn + (string * string) :=
  match body with
  | JObj fields =>
      match Js.lookup "city" fields, Js.lookup "state" fields with
      | Some (JStr city), Some (JStr s) =>
          match Str.toUpperCase s with
          | Some state =>
              if (1 <=? Str.len city) && (Str.len city <=? 100) && US_STATES_has state
              then inr (city, state)
              else inl ZodError
          | None => inl ZodError   (* a code unit above 255: none of the codes *)
          end
      | _, _ => inl ZodError
      end
  | _ => inl ZodError
  end.

Definition request_for (e : env) (city state : string) : fetch_request :=
  {| authorization := "Bearer " +:+ default "" (OPENROUTER_API_KEY e);
     http_referer := referer e;
     model := "openai/chatgpt-4o-latest";
     system := ConciseReportPrompt;
     user_content := "What's the current weather in " +:+ city +:+ ", " +:+ state +:+ "?";
     max_tokens := 500;
     temperature_tenths := 3;
     timeout_ms := 30000 |}.

(** The other responses are, letter for letter, those of [Part000]; only
    the 400 message has its own wording. *)
Definition invalid_input : response :=
  NextResponse_json_status
    (error_body "Invalid input. Please provide a valid city name and 2-letter state code.")
    400.

(** Lines 25-99, the [try] block. *)
Definition POST_try (cache : gmap string (entry json)) (e : env)
    (req : option json) (w : world) : attempt json :=
  match req with
  | None => (inl SyntaxError, cache, [])
  | Some body =>
      match requestSchema_parse body with
      | inl err => (inl err, cache, [])
      | inr (city, state) =>
          let cacheKey := Str.toLowerCase city +:+ "-" +:+ state in
          match fresh CACHE_TTL (now_lookup w) cache cacheKey with
          | Some report =>
              (inr (NextResponse_json (Part000.report_body report true)), cache, [])
          | None =>
              if key_missing e then (inr Part000.key_not_configured, cache, [])
              else
                let called := [Fetch (request_for e city state)] in
                match upstream w with
                | FetchTimeout => (inl TimeoutError, cache, called)
                | FetchFails => (inl NetworkError, cache, called)
                | FetchResolves st b =>
                    if negb (ok st) then
                      match response_text b with
                      | inl err => (inl err, cache, called)
                      | inr _ => (inr (Part000.upstream_error st), cache, called)
                      end
                    else
                      match response_json b with
                      | inl err => (inl err, cache, called)
                      | inr data =>
                          match first_choice_content data with
                          | inl err => (inl err, cache, called)
                          | inr report =>
                              if negb (Js.truthy report)
                              then (inr Part000.no_weather_data, cache, called)
                              else
                                let r := default JNull report in
                                let stored := Entry r (now_store w) in
                                (inr (NextResponse_json (Part000.report_body r false)),
                                 <[cacheKey := stored]> cache,
                                 called ++ [CacheSet cacheKey stored])
                          end
                      end
                end
          end
      end
  end.

(** Lines 100-118, the [catch] clause. *)
Definition POST_catch (error : exn) : response :=
  match error with
  | ZodError => invalid_input
  | TimeoutError => Part000.timed_out
  | _ => Part000.something_went_wrong
  end.

Definition POST (cache : gmap string (entry json)) (e : env)
    (req : option json) (w : world) : run json :=
  match POST_try cache e req w with
  | (inr r, cache', evs) => Run r cache' evs
  | (inl error, cache', evs) => Run (POST_catch error) cache' evs
  end.

End Part001.

(** ** The suggestion route ([src/app/api/suggest/route.ts]) *)

Module Suggest.

Definition CACHE_TTL : Z := 24 * 60 * 60 * 1000.

(** [/^.+,\s*[A-Z]{2}(\s+\d{5})?$/] *)
Definition suggestion_re : Regex.t :=
  Regex.Seq (Regex.Plus (Regex.Class (λ c, negb (Char.is_line_terminator c))))
 (Regex.Seq (Regex.Class (Char.is_char ","%char))
 (Regex.Seq (Regex.Star (Regex.Class Char.is_space))
 (Regex.Seq (Regex.Times 2 (Regex.Class Char.is_upper))
            (Regex.Opt (Regex.Seq (Regex.Plus (Regex.Class Char.is_space))
                                  (Regex.Times 5 (Regex.Class Char.is_digit))))))).

(** [content.replace(/^```(?:json)?\s*/, "")] *)
Definition strip_open_fence (s : string) : string :=
  if Str.starts_with "```" s then
    let r := Str.drop 3 s in
    let r := if Str.starts_with "json" r then Str.drop 4 r else r in
    Str.drop_while Char.is_space r
  else s.

(** [.replace(/\s*```$/, "")]: the leftmost match takes the closing fence
    with all the white space before it. *)
Definition strip_close_fence (s : string) : string :=
  let r := String.rev s in
  if Str.starts_with "```" r
  then Str.trimEnd (String.rev (Str.drop 3 r))
  else s.

Definition clean (content : string) : string :=
  Str.trim (strip_close_fence (strip_open_fence content)).

(** [typeof s === "string" && re.test(s)], keeping the string. *)
Definition well_shaped (s : json) : option string :=
  match s with
  | JStr t => if Regex.test suggestion_re t then Some t else None
  | _ => None
  end.

(** [parsed.filter(...).slice(0, 6)] *)
Definition select (parsed : list json) : list string :=
  take 6 (omap well_shaped parsed).

(** [content?.trim()] on the first choice: [undefined] stays [undefined],
    a string is trimmed, anything else has no [trim] to call. *)
Definition trimmed_content (content : option json) : exn + option string :=
  match content with
  | None | Some JNull => inr None
  | Some (JStr s) => inr (Some (Str.trim s))
  | Some _ => inl TypeError
  end.

Definition suggestions_body (l : list string) : json :=
  JObj [("suggestions", JArr (JStr <$> l))].

Definition request_for (e : env) (q : string) : fetch_request :=
  {| authorization := "Bearer " +:+ default "" (OPENROUTER_API_KEY e);
     http_referer := referer e;
     model := "openai/gpt-4.1-nano";
     system := AutocompletePrompt;
     user_content := q;
     max_tokens := 150;
     temperature_tenths := 0;
     timeout_ms := 5000 |}.

Section WithJsonParse.

(** [JSON.parse], [None] when it throws a [SyntaxError]. *)
Variable JSON_parse : string → option json.

(** Lines 27-100, the [try] block, entered after the cache miss with
    a configured key. *)
Definition GET_try (cache : gmap string (entry (list string))) (e : env)
    (q cacheKey : string) (w : world) : attempt (list string) :=
  let called := [Fetch (request_for e q)] in
  let empty := inr (NextResponse_json (suggestions_body [])) in
  match upstream w with
  | FetchTimeout => (inl TimeoutError, cache, called)
  | FetchFails => (inl NetworkError, cache, called)
  | FetchResolves st b =>
      if negb (ok st) then (empty, cache, called)
      else
        match response_json b with
        | inl err => (inl err, cache, called)
        | inr data =>
            match first_choice_content data with
            | inl err => (inl err, cache, called)
            | inr c =>
                match trimmed_content c with
                | inl err => (inl err, cache, called)
                | inr None => (empty, cache, called)
                | inr (Some content) =>
                    if Str.is_empty content then (empty, cache, called)
                    else
                      match JSON_parse (clean content) with
                      | None => (inl SyntaxError, cache, called)
                      | Some (JArr parsed) =>
                          let suggestions := select parsed in
                          let stored := Entry suggestions (now_store w) in
                          (inr (NextResponse_json (suggestions_body suggestions)),
                           <[cacheKey := stored]> cache,
                           called ++ [CacheSet cacheKey stored])
                      | Some _ => (empty, cache, called)
                      end
                end
            end
        end
  end.

(** [GET]; [param] is [request.nextUrl.searchParams.get("q")]. *)
Definition GET (cache : gmap string (entry (list string))) (e : env)
    (param : option string) (w : world) : run (list string) :=
  let q := Str.trim <$> param in
  match q with
  | None => Run (NextResponse_json (suggestions_body [])) cache []
  | Some q =>
      if Str.is_empty q || (Str.len q <? 2)
      then Run (NextResponse_json (suggestions_body [])) cache []
      else
        let cacheKey := Str.toLowerCase q in
        match fresh CACHE_TTL (now_lookup w) cache cacheKey with
        | Some cached => Run (NextResponse_json (suggestions_body cached)) cache []
        | None =>
            if key_missing e
            then Run (NextResponse_json (suggestions_body [])) cache []
            else
              match GET_try cache e q cacheKey w with
              | (inr r, cache', evs) => Run r cache' evs
              | (inl _, cache', evs) =>
                  Run (NextResponse_json (suggestions_body [])) cache' evs
              end
        end
  end.

End WithJsonParse.

End Suggest.

(** ** The location parsing of the page ([handleSubmit], [src/app/page.tsx]) *)

Module Page.

(** [/^([A-Z]{2})\s+(\d{5})$/] *)
Definition state_zip_re : Regex.t :=
  Regex.Seq (Regex.Times 2 (Regex.Class Char.is_upper))
 (Regex.Seq (Regex.Plus (Regex.Class Char.is_space))
            (Regex.Times 5 (Regex.Class Char.is_digit))).

(** [s.match(state_zip_re)]: the two groups, which are the first two and
    the last five characters of a matching string. *)
Definition state_zip_match (s : string) : option (string * string) :=
  if Regex.test state_zip_re s
  then Some (Str.take 2 s, Str.drop (String.length s - 5) s)
  else None.

Inductive submitted : Type :=
| InvalidLocation               (* [setError(...); return] *)
| Sent (requestBody : json)     (* the body posted to [/api/weather] *)
| SentWide (city zip : string). (* the body [{city, state}], with [zip] when it
                                   is not empty, posted with a state that is
                                   no string of the model *)

(** The value of [state] after the parsing block: a string of the model,
    or the upper-cased text after the comma where that text has a code
    unit above 255; it is then two code units long. *)
Inductive state_value : Type :=
| Narrow (s : string)
| Wide.

(** Lines 338-371: the values of [city], [state] and [zip] after the
    parsing block, [None] when the block reports the error and returns. *)
Definition parse (selectedCity selectedState selectedZip query : string)
  : option (string * state_value * string) :=
  if Str.is_empty selectedCity || Str.is_empty selectedState then
    let trimmed := Str.trim query in
    if Regex.test zip_re trimmed then Some ("", Narrow "", trimmed)
    else
      let commaIdx := Str.lastIndexOf ","%char trimmed in
      let '(city, state, zip) :=
        if 0 <? commaIdx then
          let c := Str.trim (Str.slice_to commaIdx trimmed) in
          let after := Str.trim (Str.slice_from (commaIdx + 1) trimmed) in
          match Str.toUpperCase after with
          | Some afterComma =>
              match state_zip_match afterComma with
              | Some (st, z) => (c, Narrow st, z)
              | None =>
                  if (0 <? Str.len c) && (Str.len afterComma =? 2)
                  then (c, Narrow afterComma, selectedZip)
                  else (selectedCity, Narrow selectedState, selectedZip)
              end
          | None =>
              (* U+039C or U+0178 in [afterComma]: no match for the pattern *)
              if (0 <? Str.len c) && (Z.of_nat (Str.toUpperCase_length after) =? 2)
              then (c, Wide, selectedZip)
              else (selectedCity, Narrow selectedState, selectedZip)
          end
        else (selectedCity, Narrow selectedState, selectedZip) in
      match state with
      | Narrow s =>
          if Str.is_empty city && Str.is_empty s && Str.is_empty zip
          then None
          else Some (city, state, zip)
      | Wide => Some (city, state, zip)
      end
  else Some (selectedCity, Narrow selectedState, selectedZip).

(** Lines 380-388: [requestBody]. *)
Definition requestBody (city state zip : string) : json :=
  if negb (Str.is_empty city) && negb (Str.is_empty state) then
    JObj ([("city", JStr city); ("state", JStr state)]
          ++ (if Str.is_empty zip then [] else [("zip", JStr zip)]))
  else if negb (Str.is_empty zip) then JObj [("zip", JStr zip)]
  else JObj [].

Definition handleSubmit (selectedCity selectedState selectedZip query : string)
  : submitted :=
  match parse selectedCity selectedState selectedZip query with
  | None => InvalidLocation
  | Some (city, Narrow state, zip) => Sent (requestBody city state zip)
  | Some (city, Wide, zip) => SentWide city zip
  end.

(** Free text typed into the box: [handleInputChange] has cleared the
    three selections. *)
Definition submit_typed (query : string) : submitted := handleSubmit "" "" "" query.

(** The state of the component that the handlers below read and write
    ([report], [loading], [error] and [cached] only feed the rendering). *)
Record state : Type := State {
  query : string;
  suggestions : list string;
  showSuggestions : bool;
  suggestLoading : bool;
  highlightIndex : Z;
  selectedCity : string;
  selectedState : string;
  selectedZip : string
}.

Definition initial : state := State "" [] false false (-1) "" "" "".

Definition setShowSuggestions (st : state) (b : bool) : state :=
  State (query st) (suggestions st) b (suggestLoading st) (highlightIndex st)
        (selectedCity st) (selectedState st) (selectedZip st).

Definition setHighlightIndex (st : state) (i : Z) : state :=
  State (query st) (suggestions st) (showSuggestions st) (suggestLoading st) i
        (selectedCity st) (selectedState st) (selectedZip st).

(** Lines 192-204 and 241-250: [handleInputChange], with the part of
    [fetchSuggestions] that runs at once (the rest waits for the timer). *)
Definition handleInputChange (st : state) (value : string) : state :=
  if Str.len (Str.trim value) <? 2
  then State value [] false false (highlightIndex st) "" "" ""
  else State value (suggestions st) (showSuggestions st) true (highlightIndex st)
             "" "" "".

(** Lines 216-229: the three ways the debounced fetch ends: with the
    list [data.suggestions || []], with an error, or aborted. *)
Definition suggestionsReceived (st : state) (results : list string) : state :=
  State (query st) results (negb (Nat.eqb (length results) 0)) false (-1)
        (selectedCity st) (selectedState st) (selectedZip st).

Definition suggestionsFailed (st : state) : state :=
  State (query st) [] false false (highlightIndex st)
        (selectedCity st) (selectedState st) (selectedZip st).

Definition suggestionsAborted (st : state) : state :=
  State (query st) (suggestions st) (showSuggestions st) false (highlightIndex st)
        (selectedCity st) (selectedState st) (selectedZip st).

(** Lines 253-274: [selectCity]. Without a comma past the first
    character the three selections keep their values. *)
Definition selectCity (st : state) (cityState : string) : state :=
  let commaIdx := Str.lastIndexOf ","%char cityState in
  let '(city, code, zip) :=
    if 0 <? commaIdx then
      let c := Str.trim (Str.slice_to commaIdx cityState) in
      let afterComma := Str.trim (Str.slice_from (commaIdx + 1) cityState) in
      match state_zip_match afterComma with
      | Some (s, z) => (c, s, z)
      | None => (c, afterComma, "")
      end
    else (selectedCity st, selectedState st, selectedZip st) in
  State cityState (suggestions st) false false (-1) city code zip.

(** [handleSubmit] on the state; once past the parsing it hides the
    suggestions (line 378). *)
Definition submit (st : state) : submitted :=
  handleSubmit (selectedCity st) (selectedState st) (selectedZip st) (query st).

Definition after_submit (st : state) : state :=
  match submit st with
  | InvalidLocation => st
  | Sent _ | SentWide _ _ => setShowSuggestions st false
  end.

Inductive key : Type := ArrowDown | ArrowUp | Enter | Escape | Tab | OtherKey.

Inductive key_outcome : Type :=
| Handled (st : state)
| Submitted (result : submitted) (st : state)   (* [handleSubmit()] was called *)
| Threw.                                        (* [selectCity(undefined)] *)

(** [selectCity(suggestions[i])] *)
Definition select_at (st : state) (i : Z) : key_outcome :=
  match suggestions st !! Z.to_nat i with
  | Some s => Handled (selectCity st s)
  | None => Threw
  end.

(** Lines 277-308: [handleKeyDown]. *)
Definition handleKeyDown (st : state) (k : key) : key_outcome :=
  let n := Z.of_nat (length (suggestions st)) in
  if negb (showSuggestions st) || (n =? 0) then
    match k with
    | Enter =>
        if negb (Str.is_empty (selectedCity st)) && negb (Str.is_empty (selectedState st))
        then Submitted (submit st) (after_submit st)
        else Handled st
    | _ => Handled st
    end
  else
    let prev := highlightIndex st in
    match k with
    | ArrowDown => Handled (setHighlightIndex st (if prev <? n - 1 then prev + 1 else 0))
    | ArrowUp => Handled (setHighlightIndex st (if 0 <? prev then prev - 1 else n - 1))
    | Enter => if 0 <=? prev then select_at st prev else Handled st
    | Escape => Handled (setShowSuggestions st false)
    | Tab => if 0 <=? prev then select_at st prev else Handled st
    | OtherKey => Handled st
    end.

(** The input's [onFocus] (lines 515-517) and [handleClickOutside]
    (lines 311-321). *)
Definition onFocus (st : state) : state :=
  if Nat.eqb (length (suggestions st)) 0 then st else setShowSuggestions st true.
Definition handleClickOutside (st : state) : state := setShowSuggestions st false.

(** What can happen to the component. A click lands on a suggestion that
    is rendered, so on an index of the list. *)
Inductive event : Type :=
| Typed (value : string)
| Received (results : list string)
| Failed
| Aborted
| Pressed (k : key)
| Clicked (i : nat)
| Focused
| ClickedOutside
| SubmitPressed.

Definition step (st : state) (ev : event) : option state :=
  match ev with
  | Typed value => Some (handleInputChange st value)
  | Received results => Some (suggestionsReceived st results)
  | Failed => Some (suggestionsFailed st)
  | Aborted => Some (suggestionsAborted st)
  | Pressed k =>
      match handleKeyDown st k with
      | Handled st' | Submitted _ st' => Some st'
      | Threw => None
      end
  | Clicked i =>
      if showSuggestions st
      then match suggestions st !! i with
           | Some s => Some (selectCity st s)
           | None => Some st
           end
      else Some st
  | Focused => Some (onFocus st)
  | ClickedOutside => Some (handleClickOutside st)
  | SubmitPressed => Some (after_submit st)
  end.

(** The states the component goes through from [initial]. *)
Inductive reachable : state → Prop :=
| reachable_initial : reachable initial
| reachable_step st ev st' : reachable st → step st ev = Some st' → reachable st'.

(** Lines 413-429: [highlightMatch], as the list of text pieces of the
    fragment. *)
Inductive segment : Type :=
| Plain (s : string)
| Highlighted (s : string).

Definition highlightMatch (text q : string) : list segment :=
  if Str.is_empty q then [Plain text]
  else
    let lower := Str.toLowerCase text in
    let idx := Str.indexOf (Str.toLowerCase q) lower in
    if idx =? -1 then [Plain text]
    else [Plain (Str.slice_to idx text);
          Highlighted (Str.slice idx (idx + Str.len q) text);
          Plain (Str.slice_from (idx + Str.len q) text)].

Definition segment_text (sg : segment) : string :=
  match sg with Plain s | Highlighted s => s end.




End Page.

(** ** The first version of the page ([src/app/page.tsx], lines 1-168) *)

Module PageV1.

(** The options of the state [select]: code and name. *)
Definition US_STATES : list (string * string) :=
  [ ("AL", "Alabama"); ("AK", "Alaska");
    ("AZ", "Arizona"); ("AR", "Arkansas");
    ("CA", "California"); ("CO", "Colorado");
    ("CT", "Connecticut"); ("DE", "Delaware");
    ("DC", "District of Columbia"); ("FL", "Florida");
    ("GA", "Georgia"); ("HI", "Hawaii");
    ("ID", "Idaho"); ("IL", "Illinois");
    ("IN", "Indiana"); ("IA", "Iowa");
    ("KS", "Kansas"); ("KY", "Kentucky");
    ("LA", "Louisiana"); ("ME", "Maine");
    ("MD", "Maryland"); ("MA", "Massachusetts");
    ("MI", "Michigan"); ("MN", "Minnesota");
    ("MS", "Mississippi"); ("MO", "Missouri");
    ("MT", "Montana"); ("NE", "Nebraska");
    ("NV", "Nevada"); ("NH", "New Hampshire");
    ("NJ", "New Jersey"); ("NM", "New Mexico");
    ("NY", "New York"); ("NC", "North Carolina");
    ("ND", "North Dakota"); ("OH", "Ohio");
    ("OK", "Oklahoma"); ("OR", "Oregon");
    ("PA", "Pennsylvania"); ("RI", "Rhode Island");
    ("SC", "South Carolina"); ("SD", "South Dakota");
    ("TN", "Tennessee"); ("TX", "Texas");
    ("UT", "Utah"); ("VT", "Vermont");
    ("VA", "Virginia"); ("WA", "Washington");
    ("WV", "West Virginia"); ("WI", "Wisconsin");
    ("WY", "Wyoming") ].

(** The values the [select] can hold: the placeholder option [""] and
    the codes. *)
Definition select_values : list string := "" :: (fst <$> US_STATES).

(** Lines 42-56: the body [handleSubmit] posts, [None] when it returns at
    once. *)
Definition handleSubmit (city state : string) : option json :=
  if Str.is_empty (Str.trim city) || Str.is_empty state then None
  else Some (JObj [("city", JStr (Str.trim city)); ("state", JStr state)]).

End PageV1.

(** ** Notions used in the statements *)

(** The cache key a request body is looked up under by [Part000.POST];
    [None] when the body does not get as far as the lookup. *)
Definition cache_key (body : json) : option string :=
  match Part000.locate body with
  | inr (_, cacheKey) => Some cacheKey
  | inl _ => None
  end.

(** The request gets past validation, misses the cache and finds the
    credential configured: the handler calls the upstream service for
    [location] and would store the report under [cacheKey]. *)
Definition reaches_upstream (cache : gmap string (entry json)) (e : env)
    (req : option json) (w : world) (location cacheKey : string) : Prop :=
  ∃ body, req = Some body
        ∧ Part000.locate body = inr (location, cacheKey)
        ∧ fresh Part000.CACHE_TTL (now_lookup w) cache cacheKey = None
        ∧ key_missing e = false.

(** A list the suggestion route may return: every string is in the
    language of [Suggest.suggestion_re] and there are at most six. *)
Definition shaped (l : list string) : Prop :=
  Forall (Regex.lang Suggest.suggestion_re) l ∧ (length l ≤ 6)%nat.

Definition shaped_cache (cache : gmap string (entry (list string))) : Prop :=
  ∀ k ent, cache !! k = Some ent → shaped (data ent).

(** The suggestion request carries a query [q] of two characters or more,
    misses the cache and finds the credential configured: the handler calls
    the upstream service with [q]. *)
Definition asks_upstream (cache : gmap string (entry (list string))) (e : env)
    (param : option string) (w : world) (q : string) : Prop :=
  ∃ p, param = Some p ∧ q = Str.trim p ∧ 2 ≤ Str.len q
     ∧ fresh Suggest.CACHE_TTL (now_lookup w) cache (Str.toLowerCase q) = None
     ∧ key_missing e = false.

Section UpstreamArray.

Variable JSON_parse : string → option json.

(** The fully successful upstream exchange: a 2xx answer whose body is
    JSON, whose first choice has a string content that is not empty once
    trimmed, and whose cleaned content parses as an array. *)
Definition upstream_array (w : world) : option (list json) :=
  match upstream w with
  | FetchResolves st (BodyJson data) =>
      if ok st then
        match first_choice_content data with
        | inr (Some (JStr s)) =>
            if Str.is_empty (Str.trim s) then None
            else
              match JSON_parse (Suggest.clean (Str.trim s)) with
              | Some (JArr parsed) => Some parsed
              | _ => None
              end
        | _ => None
        end
      else None
  | _ => None
  end.

(** The ways the upstream exchange of the suggestion route fails. *)
Inductive suggest_failure (w : world) : Prop :=
| failure_timeout :
    upstream w = FetchTimeout → suggest_failure w
| failure_network :
    upstream w = FetchFails → suggest_failure w
| failure_status st b :
    upstream w = FetchResolves st b → ok st = false → suggest_failure w
| failure_body st b :
    upstream w = FetchResolves st b → (∀ data, b ≠ BodyJson data) →
    suggest_failure w
| failure_no_content st data :
    upstream w = FetchResolves st (BodyJson data) →
    (∀ s, first_choice_content data ≠ inr (Some (JStr s))) →
    suggest_failure w
| failure_empty_content st data s :
    upstream w = FetchResolves st (BodyJson data) →
    first_choice_content data = inr (Some (JStr s)) → Str.trim s = "" →
    suggest_failure w
| failure_parse st data s :
    upstream w = FetchResolves st (BodyJson data) →
    first_choice_content data = inr (Some (JStr s)) →
    JSON_parse (Suggest.clean (Str.trim s)) = None →
    suggest_failure w
| failure_not_array st data s j :
    upstream w = FetchResolves st (BodyJson data) →
    first_choice_content data = inr (Some (JStr s)) →
    JSON_parse (Suggest.clean (Str.trim s)) = Some j → (∀ l, j ≠ JArr l) →
    suggest_failure w.

End UpstreamArray.



(** The shapes named by the parsing rules of the page. *)
Definition no_comma (s : string) : Prop :=
  Str.all (λ c, negb (Char.is_char ","%char c)) s = true.

Definition five_digits (s : string) : Prop :=
  String.length s = 5%nat ∧ Str.all Char.is_digit s = true.

(** [after] is a two-letter code [st], white space, and a five-digit [zip]. *)
Definition state_and_zip (after st zip : string) : Prop :=
  ∃ gap, after = st +:+ gap +:+ zip
       ∧ String.length st = 2%nat ∧ Str.all Char.is_upper st = true
       ∧ gap ≠ "" ∧ Str.all Char.is_space gap = true
       ∧ five_digits zip.

(** Exactly two letters. *)
Definition two_letters (s : string) : Prop :=
  String.length s = 2%nat ∧ Str.all Char.is_letter s = true.

(** The two kinds of request body [Part000.locate] lets through, with the
    location it names and the key it derives. *)
Definition zip_suffix (sep : string) (zip : option string) : string :=
  match zip with
  | Some z => if Str.is_empty z then "" else sep +:+ z
  | None => ""
  end.

Definition zip_only_location (body : json) (location cacheKey : string) : Prop :=
  ∃ fields zip,
    body = JObj fields
    ∧ Js.lookup "zip" fields = Some (JStr zip) ∧ five_digits zip
    ∧ Js.truthy (Js.lookup "city" fields) = false
    ∧ location = "zip code " +:+ zip ∧ cacheKey = "zip-" +:+ zip.

Definition city_state_location (body : json) (location cacheKey : string) : Prop :=
  ∃ fields city s state zip,
    body = JObj fields
    ∧ Js.lookup "city" fields = Some (JStr city) ∧ 1 ≤ Str.len city ≤ 100
    ∧ Js.lookup "state" fields = Some (JStr s)
    ∧ Str.toUpperCase s = Some state ∧ In state US_STATES
    ∧ Js.lookup "zip" fields = JStr <$> zip
    ∧ location = city +:+ ", " +:+ state +:+ zip_suffix " " zip
    ∧ cacheKey = Str.toLowerCase city +:+ "-" +:+ state +:+ zip_suffix "-" zip.

(** What holds of the component in every state it reaches: the
    highlighted index is [-1] or an index of the list of suggestions when
    there is one, and the selected zip is empty or five digits. *)
Definition page_invariant (st : Page.state) : Prop :=
  -1 ≤ Page.highlightIndex st
  ∧ (Page.suggestions st = []
     ∨ Page.highlightIndex st < Z.of_nat (length (Page.suggestions st)))
  ∧ (Page.selectedZip st = "" ∨ five_digits (Page.selectedZip st)).


(** The text a list of pieces shows. *)
Definition shown_text (l : list Page.segment) : string :=
  foldr (λ sg acc, Page.segment_text sg +:+ acc) "" l.

(** ** Sample requests, environments and upstream behaviours *)

Module Sample.


Definition austin : json := JObj [("city", JStr "Austin"); ("state", JStr "tx")].
Definition nowhere : json := JObj [("city", JStr "Nowhere"); ("state", JStr "zz")].
Definition denver_abc : json :=
  JObj [("city", JStr "Denver"); ("state", JStr "CO"); ("zip", JStr "abc")].
Definition denver_80202 : json :=
  JObj [("city", JStr "Denver"); ("state", JStr "CO"); ("zip", JStr "80202")].
Definition zip_80202 : json := JObj [("zip", JStr "80202")].

Definition configured : env := Env (Some "sk-or-v1-0123456789") None.
Definition unconfigured : env := Env None None.
Definition placeholder : env := Env (Some "your_openrouter_api_key_here") None.

(** A chat-completion answer whose first choice carries [content]. *)
Definition completion (content : json) : json :=
  JObj [("id", JStr "gen-1");
        ("choices",
         JArr [JObj [("index", JNum 0);
                     ("message", JObj [("role", JStr "assistant");
                                       ("content", content)])]])].

Definition sunny : json := JStr "CURRENT CONDITIONS 75 F, clear skies".

(** The clock reads [t] at the lookup and [t + 800] at the write. *)
Definition answering (t : Z) (st : Z) (b : body_outcome) : world :=
  World t (FetchResolves st b) (t + 800).
Definition succeeding (t : Z) : world := answering t 200 (BodyJson (completion sunny)).
Definition timing_out (t : Z) : world := World t FetchTimeout (t + 30000).
Definition unreachable (t : Z) : world := World t FetchFails t.

(** The double quote and the line feed, for writing JSON texts. *)
Definition dq : string := String (ascii_of_nat 34) EmptyString.
Definition nl : string := String (ascii_of_nat 10) EmptyString.

(** A fenced answer of the model to the query ["den"], and an unfenced
    answer none of whose entries has the expected shape. *)
Definition den_array : string :=
  "[" +:+ dq +:+ "Denver, CO" +:+ dq +:+ ", " +:+ dq +:+ "Denver, CO 80202" +:+ dq
      +:+ ", " +:+ dq +:+ "denver" +:+ dq +:+ ", 7]".
Definition den_fenced : string := "```json" +:+ nl +:+ den_array +:+ nl +:+ "```".
Definition xq_array : string := "[" +:+ dq +:+ "no match" +:+ dq +:+ "]".

(** [JSON.parse] on the texts of the examples. *)
Definition parse_table (text : string) : option json :=
  if String.eqb text den_array
  then Some (JArr [JStr "Denver, CO"; JStr "Denver, CO 80202"; JStr "denver"; JNum 7])
  else if String.eqb text xq_array then Some (JArr [JStr "no match"])
  else if String.eqb text "{}" then Some (JObj [])
  else None.

(** The model answers ["den"] with the fenced array, and ["XQ"] with the
    array without a well-shaped entry. *)
Definition fenced : world :=
  answering 0 200 (BodyJson (completion (JStr den_fenced))).
Definition unshaped : world :=
  answering 0 200 (BodyJson (completion (JStr xq_array))).

(** A weather cache holding a report for Austin stored at time 0. *)
Definition austin_at_0 : gmap string (entry json) :=
  {[ "austin-TX" := Entry sunny 0 ]}.

End Sample.

(** Case analysis on the 256 characters. *)
Ltac by_cases c :=
  destruct c as [[] [] [] [] [] [] [] []]; vm_compute; try reflexivity; try congruence.

(** Closes the goal that a run left the cache alone: no effect at all, or
    one upstream call that ended in an error response. *)
Ltac no_write :=
  left; split; [reflexivity|];
  first [ left; reflexivity
        | right; split; [reflexivity || assumption|]; split; [by cbn|];
          repeat eexists ].


(** * Properties *)

#[local] Arguments String.append !_ _ : simpl nomatch.

(** ** Characters and strings *)

Section CharFacts.


Lemma to_lower_idem c : Char.to_lower (Char.to_lower c) = Char.to_lower c.
Proof. by_cases c. Qed.

Lemma eq_nocase_lower a b :
  Char.eq_nocase a b = true → Char.to_lower a = Char.to_lower b.
Proof. unfold Char.eq_nocase. apply Ascii.eqb_eq. Qed.


Lemma eq_nocase_to_lower c : Char.eq_nocase (Char.to_lower c) c = true.
Proof. unfold Char.eq_nocase. rewrite to_lower_idem. apply Ascii.eqb_refl. Qed.

(** The upper-case form of a character is made of capitals: upper-casing
    it again changes nothing. *)
Lemma to_upper_fixed c u :
  Char.to_upper c = Some u → Str.toUpperCase u = Some u.
Proof.
  destruct c as [[] [] [] [] [] [] [] []]; intros H; vm_compute in H;
    first [discriminate H | injection H as <-; vm_compute; reflexivity].
Qed.

Lemma to_upper_upper c :
  Char.is_upper c = true → Char.to_upper c = Some (String c "").
Proof. by_cases c. Qed.

Lemma upper_length_to_upper c u :
  Char.to_upper c = Some u → String.length u = Char.upper_length c.
Proof.
  destruct c as [[] [] [] [] [] [] [] []]; intros H; vm_compute in H;
    first [discriminate H | injection H as <-; vm_compute; reflexivity].
Qed.

Lemma upper_not_space c : Char.is_upper c = true → Char.is_space c = false.
Proof. by_cases c. Qed.

Lemma digit_not_space c : Char.is_digit c = true → Char.is_space c = false.
Proof. by_cases c. Qed.

End CharFacts.

Section StrFacts.

Lemma app_nil_r s : s +:+ "" = s.
Proof. induction s; simpl; congruence. Qed.

Lemma app_assoc s1 s2 s3 : (s1 +:+ s2) +:+ s3 = s1 +:+ (s2 +:+ s3).
Proof. induction s1; simpl; congruence. Qed.

Lemma length_app s1 s2 :
  String.length (s1 +:+ s2) = (String.length s1 + String.length s2)%nat.
Proof. induction s1; simpl; congruence. Qed.

Lemma map_length f s : String.length (Str.map f s) = String.length s.
Proof. induction s; simpl; congruence. Qed.

Lemma map_app f s1 s2 : Str.map f (s1 +:+ s2) = Str.map f s1 +:+ Str.map f s2.
Proof. induction s1; simpl; congruence. Qed.

Lemma all_app p s1 s2 : Str.all p (s1 +:+ s2) = Str.all p s1 && Str.all p s2.
Proof. induction s1; simpl; [done|]. rewrite IHs1. by destruct (p a). Qed.

Lemma take_app s1 s2 : Str.take (String.length s1) (s1 +:+ s2) = s1.
Proof. induction s1; simpl; [by destruct s2 | congruence]. Qed.

Lemma drop_app s1 s2 : Str.drop (String.length s1) (s1 +:+ s2) = s2.
Proof. induction s1; simpl; [by destruct s2 | congruence]. Qed.

Lemma take_drop n s : Str.take n s +:+ Str.drop n s = s.
Proof.
  revert s; induction n; intros [|c s]; simpl; try done. by rewrite IHn.
Qed.

Lemma is_empty_true s : Str.is_empty s = true ↔ s = "".
Proof. by destruct s. Qed.


Lemma eq_nocase_toLowerCase s t :
  Str.eq_nocase s t = true → Str.toLowerCase s = Str.toLowerCase t.
Proof.
  revert t; induction s; intros [|b t]; simpl; try done.
  intros [Hc H]%andb_prop. unfold Str.toLowerCase in *; simpl.
  by rewrite (eq_nocase_lower _ _ Hc), (IHs t H).
Qed.



Lemma toUpperCase_app s t u v :
  Str.toUpperCase s = Some u → Str.toUpperCase t = Some v →
  Str.toUpperCase (s +:+ t) = Some (u +:+ v).
Proof.
  revert u; induction s as [|c s IH]; intros u; cbn [Str.toUpperCase String.append].
  - by intros [= <-] ->.
  - destruct (Char.to_upper c) as [x|]; [|done].
    destruct (Str.toUpperCase s) as [r|]; [|done].
    intros [= <-] Ht. rewrite (IH r eq_refl Ht). by rewrite app_assoc.
Qed.

(** Upper-casing twice is upper-casing once. *)
Lemma toUpperCase_idem s u :
  Str.toUpperCase s = Some u → Str.toUpperCase u = Some u.
Proof.
  revert u; induction s as [|c s IH]; intros u; cbn [Str.toUpperCase].
  - by intros [= <-].
  - destruct (Char.to_upper c) as [x|] eqn:Hc; [|done].
    destruct (Str.toUpperCase s) as [r|]; [|done].
    intros [= <-]. apply toUpperCase_app; [by apply (to_upper_fixed c) | by apply IH].
Qed.

Lemma toUpperCase_upper s :
  Str.all Char.is_upper s = true → Str.toUpperCase s = Some s.
Proof.
  induction s as [|c s IH]; [done|]. cbn [Str.all Str.toUpperCase].
  intros [Hc Hs]%andb_prop. by rewrite (to_upper_upper _ Hc), (IH Hs).
Qed.

(** The length of the upper-cased text, when it is a string of the model. *)
Lemma toUpperCase_length_eq s u :
  Str.toUpperCase s = Some u → String.length u = Str.toUpperCase_length s.
Proof.
  revert u; induction s as [|c s IH]; intros u; cbn [Str.toUpperCase Str.toUpperCase_length].
  - by intros [= <-].
  - destruct (Char.to_upper c) as [x|] eqn:Hc; [|done].
    destruct (Str.toUpperCase s) as [r|]; [|done].
    intros [= <-]. rewrite length_app, (IH r eq_refl).
    by rewrite (upper_length_to_upper _ _ Hc).
Qed.

Lemma eq_nocase_toLowerCase_l s : Str.eq_nocase (Str.toLowerCase s) s = true.
Proof. induction s; simpl; [done|]. by rewrite eq_nocase_to_lower. Qed.

End StrFacts.

(** ** The derivative matcher decides the language of the expression *)

Section RegexFacts.

Import Regex.

Lemma app_eq_nil s1 s2 : s1 +:+ s2 = "" → s1 = "" ∧ s2 = "".
Proof. by destruct s1. Qed.

Lemma lang_seq_inv r1 r2 s :
  lang (Seq r1 r2) s → ∃ s1 s2, s = s1 +:+ s2 ∧ lang r1 s1 ∧ lang r2 s2.
Proof. inversion 1; subst; eauto. Qed.

Lemma lang_alt_inv r1 r2 s : lang (Alt r1 r2) s → lang r1 s ∨ lang r2 s.
Proof. inversion 1; subst; eauto. Qed.

Lemma lang_star_inv r s :
  lang (Star r) s →
  s = "" ∨ ∃ c s1 s2,
    s = String c s1 +:+ s2 ∧ lang r (String c s1) ∧ lang (Star r) s2.
Proof. inversion 1; subst; eauto 8. Qed.

Lemma lang_eps_inv s : lang Eps s → s = "".
Proof. by inversion 1. Qed.

Lemma lang_class_inv p s : lang (Class p) s → ∃ c, s = String c "" ∧ p c = true.
Proof. inversion 1; subst; eauto. Qed.

Lemma nullable_lang r : nullable r = true ↔ lang r "".
Proof.
  induction r; simpl.
  - split; [done | inversion 1].
  - split; [constructor | done].
  - split; [done | inversion 1].
  - rewrite andb_true_iff, IHr1, IHr2. split.
    + intros [H1 H2]. apply (lang_seq _ _ "" "" H1 H2).
    + intros (s1 & s2 & E & H1 & H2)%lang_seq_inv.
      symmetry in E. apply app_eq_nil in E as [-> ->]. done.
  - rewrite orb_true_iff, IHr1, IHr2. split.
    + intros [H|H]; [by apply lang_alt_l | by apply lang_alt_r].
    + apply lang_alt_inv.
  - split; [constructor | done].
Qed.

Lemma deriv_lang c r : ∀ s, lang (deriv c r) s ↔ lang r (String c s).
Proof.
  induction r; intros s; simpl.
  - split; inversion 1.
  - split; inversion 1.
  - destruct (p c) eqn:Hp; split.
    + intros ->%lang_eps_inv. by constructor.
    + intros (d & [= <- ->] & _)%lang_class_inv. constructor.
    + inversion 1.
    + intros (d & [= <- ->] & Hd)%lang_class_inv. congruence.
  - assert (Hl : lang (Seq (deriv c r1) r2) s → lang (Seq r1 r2) (String c s)).
    { intros (s1 & s2 & -> & H1 & H2)%lang_seq_inv.
      apply IHr1 in H1. apply (lang_seq _ _ _ _ H1 H2). }
    assert (Hr : lang (Seq r1 r2) (String c s) →
                 lang (Seq (deriv c r1) r2) s ∨ lang r1 "" ∧ lang (deriv c r2) s).
    { intros (s1 & s2 & E & H1 & H2)%lang_seq_inv.
      destruct s1 as [|d s1]; simpl in E.
      - subst s2. right. split; [done | by apply IHr2].
      - injection E as <- ->. left. apply lang_seq; [by apply IHr1 | done]. }
    destruct (nullable r1) eqn:Hn; split.
    + intros [H|H]%lang_alt_inv; [by apply Hl|].
      apply IHr2 in H. apply nullable_lang in Hn.
      apply (lang_seq _ _ "" _ Hn H).
    + intros [H|[_ H]]%Hr; [by apply lang_alt_l | by apply lang_alt_r].
    + apply Hl.
    + intros [H|[H _]]%Hr; [done|].
      apply nullable_lang in H. congruence.
  - split.
    + intros [H|H]%lang_alt_inv;
        [apply lang_alt_l, IHr1, H | apply lang_alt_r, IHr2, H].
    + intros [H|H]%lang_alt_inv;
        [apply lang_alt_l, IHr1, H | apply lang_alt_r, IHr2, H].
  - split.
    + intros (s1 & s2 & -> & H1 & H2)%lang_seq_inv.
      apply IHr in H1. apply (lang_star_cons _ _ _ _ H1 H2).
    + intros [E|(d & s1 & s2 & E & H1 & H2)]%lang_star_inv; [done|].
      simpl in E. injection E as <- ->.
      apply lang_seq; [by apply IHr | done].
Qed.

Lemma test_lang s : ∀ r, test r s = true ↔ lang r s.
Proof.
  induction s as [|c s IH]; intros r; simpl.
  - apply nullable_lang.
  - rewrite IH. apply deriv_lang.
Qed.

(** Runs of one character class. *)

Lemma lang_star_class p s : lang (Star (Class p)) s ↔ Str.all p s = true.
Proof.
  split.
  - remember (Star (Class p)) as r eqn:Er. induction 1; try done.
    injection Er as ->.
    apply lang_class_inv in H as (d & [= -> ->] & Hd).
    simpl. rewrite Hd. by apply IHlang2.
  - induction s as [|c s IH]; simpl; [constructor|].
    intros [Hc Hs]%andb_prop.
    apply (lang_star_cons _ c "" s); [by constructor | by apply IH].
Qed.

Lemma lang_plus_class p s :
  lang (Plus (Class p)) s ↔ s ≠ "" ∧ Str.all p s = true.
Proof.
  unfold Plus. split.
  - intros (s1 & s2 & -> & (c & -> & Hc)%lang_class_inv & H2%lang_star_class)%lang_seq_inv.
    simpl. by rewrite Hc, H2.
  - intros [Hne Hs]. destruct s as [|c s]; [done|]. simpl in Hs.
    apply andb_prop in Hs as [Hc Hs].
    apply (lang_seq _ _ (String c "") s); [by constructor | by apply lang_star_class].
Qed.

Lemma lang_times_class n p : ∀ s,
  lang (Times n (Class p)) s ↔ String.length s = n ∧ Str.all p s = true.
Proof.
  induction n as [|n IH]; intros s; simpl.
  - split.
    + by intros ->%lang_eps_inv.
    + intros [Hl _]. destruct s; [constructor | done].
  - split.
    + intros (s1 & s2 & -> & (c & -> & Hc)%lang_class_inv & [Hl Hs]%IH)%lang_seq_inv.
      simpl. by rewrite Hc, Hl, Hs.
    + intros [Hl Hs]. destruct s as [|c s]; [done|]. simpl in Hl, Hs.
      apply andb_prop in Hs as [Hc Hs].
      apply (lang_seq _ _ (String c "") s); [by constructor|].
      apply IH. split; [lia | done].
Qed.

Lemma lang_opt r s : lang (Opt r) s ↔ lang r s ∨ s = "".
Proof.
  unfold Opt. split.
  - intros [H| ->%lang_eps_inv]%lang_alt_inv; eauto.
  - intros [H| ->]; [by apply lang_alt_l | apply lang_alt_r; constructor].
Qed.

End RegexFacts.

(** ** The cache lookup *)

Section CacheFacts.

Context {A : Type}.
Implicit Types (cache : gmap string (entry A)) (k : string) (ent : entry A).

Lemma fresh_Some ttl now cache k d :
  fresh ttl now cache k = Some d ↔
  ∃ ent, cache !! k = Some ent ∧ now - timestamp ent < ttl ∧ data ent = d.
Proof.
  unfold fresh. destruct (cache !! k) as [ent|]; [|split; [done | by intros (? & ? & _)]].
  destruct (Z.ltb_spec (now - timestamp ent) ttl); split.
  - intros [= <-]. eauto.
  - by intros (? & [= <-] & _ & ->).
  - done.
  - intros (? & [= <-] & ? & _). lia.
Qed.


Lemma fresh_hit ttl now cache k ent :
  cache !! k = Some ent → now - timestamp ent < ttl →
  fresh ttl now cache k = Some (data ent).
Proof. intros Hk Hlt. apply fresh_Some. eauto. Qed.


End CacheFacts.

(** ** The weather route *)

Section WeatherFacts.

Implicit Types (cache : gmap string (entry json)) (e : env) (w : world).

Lemma US_STATES_count : length US_STATES = 51%nat ∧ NoDup US_STATES.
Proof. split; [reflexivity|]. apply (bool_decide_unpack _). by vm_compute. Qed.

Lemma US_STATES_has_In s : US_STATES_has s = true ↔ In s US_STATES.
Proof.
  unfold US_STATES_has. rewrite existsb_exists. split.
  - by intros (x & Hx & ->%String.eqb_eq).
  - intros H. exists s. split; [done | apply String.eqb_refl].
Qed.

Lemma len_nonempty s : 1 ≤ Str.len s → Str.is_empty s = false.
Proof. destruct s; unfold Str.len; simpl; [lia | done]. Qed.





(** *** The paths through [Part000.POST] *)

Lemma POST_not_json cache e w :
  Part000.POST cache e None w = Run Part000.something_went_wrong cache [].
Proof. reflexivity. Qed.

Lemma POST_thrown cache e w body err :
  Part000.locate body = inl err →
  Part000.POST cache e (Some body) w = Run (Part000.POST_catch err) cache [].
Proof. intros H. unfold Part000.POST, Part000.POST_try. by rewrite H. Qed.

Lemma POST_hit cache e w body location k report :
  Part000.locate body = inr (location, k) →
  fresh Part000.CACHE_TTL (now_lookup w) cache k = Some report →
  Part000.POST cache e (Some body) w
  = Run (NextResponse_json (Part000.report_body report true)) cache [].
Proof. intros H1 H2. unfold Part000.POST, Part000.POST_try. by rewrite H1, H2. Qed.

Lemma POST_no_key cache e w body location k :
  Part000.locate body = inr (location, k) →
  fresh Part000.CACHE_TTL (now_lookup w) cache k = None →
  key_missing e = true →
  Part000.POST cache e (Some body) w = Run Part000.key_not_configured cache [].
Proof.
  intros H1 H2 H3. unfold Part000.POST, Part000.POST_try. by rewrite H1, H2, H3.
Qed.

(** What the handler does with the outcome of the fetch. *)
Lemma POST_fetch cache e w req location k :
  reaches_upstream cache e req w location k →
  Part000.POST cache e req w =
  let called := [Fetch (Part000.request_for e location)] in
  match upstream w with
  | FetchTimeout => Run Part000.timed_out cache called
  | FetchFails => Run Part000.something_went_wrong cache called
  | FetchResolves st b =>
      if ok st then
        match response_json b with
        | inl err => Run (Part000.POST_catch err) cache called
        | inr data =>
            match first_choice_content data with
            | inl err => Run (Part000.POST_catch err) cache called
            | inr report =>
                if Js.truthy report then
                  let r := default JNull report in
                  Run (NextResponse_json (Part000.report_body r false))
                      (<[k := Entry r (now_store w)]> cache)
                      (called ++ [CacheSet k (Entry r (now_store w))])
                else Run Part000.no_weather_data cache called
            end
        end
      else
        match response_text b with
        | inl err => Run (Part000.POST_catch err) cache called
        | inr _ => Run (Part000.upstream_error st) cache called
        end
  end.
Proof.
  intros (body & -> & H1 & H2 & H3).
  unfold Part000.POST, Part000.POST_try. rewrite H1, H2, H3.
  destruct (upstream w) as [| |st b]; try done.
  destruct (ok st); simpl.
  - destruct (response_json b) as [|data]; [done|].
    destruct (first_choice_content data) as [|report]; [done|].
    by destruct (Js.truthy report).
  - by destruct (response_text b).
Qed.

(** A JSON body other than [null] is turned away by the schemas only. *)
Lemma locate_error body err :
  body ≠ JNull → Part000.locate body = inl err → err = ZodError.
Proof.
  intros Hnull. unfold Part000.locate.
  destruct body as [| | | |?|fields]; try done; cbn [Js.prop Js.truthy andb];
    try (unfold Part000.cityStateSchema_parse; by intros [= <-]).
  destruct (_ && _).
  - unfold Part000.zipOnlySchema_parse.
    destruct (Js.lookup "zip" fields) as [[| | |z| |]|]; try (by intros [= <-]).
    destruct (Regex.test zip_re z); by intros [= <-].
  - unfold Part000.cityStateSchema_parse.
    destruct (Js.lookup "city" fields) as [[| | |c| |]|]; try (by intros [= <-]);
    destruct (Js.lookup "state" fields) as [[| | |st| |]|]; try (by intros [= <-]).
    destruct (Str.toUpperCase st); [|by intros [= <-]].
    destruct (_ && _); [|by intros [= <-]].
    destruct (Js.lookup "zip" fields) as [[| | |z| |]|]; try done; by intros [= <-].
Qed.

(** C3, as the code has it. Each failure of the weather route has its
    status code and message: a JSON body, other than [null], that the
    schemas turn away gives 400, and a body that is not JSON the generic
    500; a missing or placeholder credential, found at the credential
    check, gives 500 with the configuration message; an upstream answer
    outside 2xx whose body can be read gives 502 with the upstream status
    in the message, and an answer in 2xx without report text gives 502;
    a time-out of the upstream call or of the reading of its body gives
    504; a network failure and an unreadable or malformed upstream body
    give the generic 500. Every request gets one response, whose status
    is 200 or one of these four codes, and the upstream service is called
    at most once. *)
Theorem failure_status_mapping cache e req w :
  let r := Part000.POST cache e req w in
  let error st msg := Response st (JObj [("error", JStr msg)]) in
  let generic := error 500 "Something went wrong. Please try again." in
  let timed_out :=
    error 504 "Request timed out. The weather service is taking too long to respond." in
  (* the request body *)
  (req = None → resp r = generic) ∧
  (∀ body, req = Some body → body ≠ JNull → cache_key body = None →
     resp r = error 400 "Invalid input. Please provide a valid city/state or a 5-digit US zip code.") ∧
  (* the credential *)
  (∀ body location k,
     req = Some body → Part000.locate body = inr (location, k) →
     fresh Part000.CACHE_TTL (now_lookup w) cache k = None →
     key_missing e = true →
     resp r = error 500 "OpenRouter API key not configured. Add OPENROUTER_API_KEY to your environment variables.") ∧
  (* the upstream call *)
  (∀ location k, reaches_upstream cache e req w location k →
     (upstream w = FetchTimeout → resp r = timed_out) ∧
     (upstream w = FetchFails → resp r = generic) ∧
     (∀ st b, upstream w = FetchResolves st b → ok st = false →
        match b with
        | BodyJson _ | BodyNotJson =>
            resp r = error 502 ("Weather service returned an error (" +:+ Str.of_Z st
                                +:+ "). Please try again.")
        | BodyTimeout => resp r = timed_out
        | BodyFails => resp r = generic
        end) ∧
     (∀ st b, upstream w = FetchResolves st b → ok st = true →
        match b with
        | BodyJson JNull | BodyNotJson | BodyFails => resp r = generic
        | BodyTimeout => resp r = timed_out
        | BodyJson data =>
            ∀ report, first_choice_content data = inr report →
              if Js.truthy report
              then resp r = Response 200 (JObj [("report", default JNull report);
                                                ("cached", JBool false)])
              else resp r = error 502 "No weather data received. Please try again."
        end)) ∧
  (* one response, no retry *)
  (status (resp r) = 200 ∨ status (resp r) = 400 ∨ status (resp r) = 500
   ∨ status (resp r) = 502 ∨ status (resp r) = 504) ∧
  (upstream_calls (effects r) ≤ 1)%nat.
Proof.
  intros r error generic timed_out; subst r error generic timed_out.
  repeat apply conj.
  - by intros ->.
  - intros body -> Hnull Hkey. unfold cache_key in Hkey.
    destruct (Part000.locate body) as [err|[? ?]] eqn:Hloc; [|done].
    rewrite (locate_error _ _ Hnull Hloc) in Hloc.
    by rewrite (POST_thrown _ _ _ _ _ Hloc).
  - intros body location k -> H1 H2 H3. by rewrite (POST_no_key _ _ _ _ _ _ H1 H2 H3).
  - intros location k Hr. rewrite (POST_fetch _ _ _ _ _ _ Hr). cbv zeta.
    repeat apply conj.
    + by intros ->.
    + by intros ->.
    + intros st b -> ->. by destruct b.
    + intros st b -> ->. destruct b as [data| | |]; try done.
      destruct data; cbn [response_json]; try done;
        intros report ->; by destruct (Js.truthy report).
  - destruct req as [body|]; [|simpl; auto].
    destruct (Part000.locate body) as [err|[location k]] eqn:Hloc.
    { rewrite (POST_thrown _ _ _ _ _ Hloc). destruct err; simpl; auto. }
    destruct (fresh Part000.CACHE_TTL (now_lookup w) cache k) as [report|] eqn:Hf.
    { rewrite (POST_hit _ _ _ _ _ _ _ Hloc Hf). simpl; auto. }
    destruct (key_missing e) eqn:Hk.
    { rewrite (POST_no_key _ _ _ _ _ _ Hloc Hf Hk). simpl; auto. }
    rewrite (POST_fetch cache e w (Some body) location k) by (exists body; auto).
    cbv zeta. repeat case_match; simpl; auto;
      match goal with |- context [Part000.POST_catch ?x] => destruct x; simpl; auto end.
  - destruct req as [body|]; [|unfold upstream_calls; simpl; lia].
    destruct (Part000.locate body) as [err|[location k]] eqn:Hloc.
    { rewrite (POST_thrown _ _ _ _ _ Hloc). unfold upstream_calls; simpl; lia. }
    destruct (fresh Part000.CACHE_TTL (now_lookup w) cache k) as [report|] eqn:Hf.
    { rewrite (POST_hit _ _ _ _ _ _ _ Hloc Hf). unfold upstream_calls; simpl; lia. }
    destruct (key_missing e) eqn:Hk.
    { rewrite (POST_no_key _ _ _ _ _ _ Hloc Hf Hk). unfold upstream_calls; simpl; lia. }
    rewrite (POST_fetch cache e w (Some body) location k) by (exists body; auto).
    cbv zeta. repeat case_match; unfold upstream_calls; simpl; lia.
Qed.

(** C9. A fresh cache entry is served, with status 200, the stored
    report and [cached: true], whatever the state of the credential, in
    both versions of the route; and the configuration-error response is
    only ever produced after a cache miss with the credential missing or
    left at the placeholder. *)
Theorem cached_report_needs_no_credential :
  let served report :=
    Response 200 (JObj [("report", report); ("cached", JBool true)]) in
  let not_configured :=
    Response 500 (JObj [("error", JStr "OpenRouter API key not configured. Add OPENROUTER_API_KEY to your environment variables.")]) in
  (∀ cache e w body location k ent,
     Part000.locate body = inr (location, k) →
     cache !! k = Some ent →
     now_lookup w - timestamp ent < 15 * 60 * 1000 →
     Part000.POST cache e (Some body) w = Run (served (data ent)) cache []) ∧
  (∀ cache e w req,
     resp (Part000.POST cache e req w) = not_configured →
     ∃ body location k,
       req = Some body ∧ Part000.locate body = inr (location, k)
       ∧ fresh Part000.CACHE_TTL (now_lookup w) cache k = None
       ∧ key_missing e = true) ∧
  (∀ cache e w body city state ent,
     Part001.requestSchema_parse body = inr (city, state) →
     cache !! (Str.toLowerCase city +:+ "-" +:+ state) = Some ent →
     now_lookup w - timestamp ent < 15 * 60 * 1000 →
     Part001.POST cache e (Some body) w = Run (served (data ent)) cache []) ∧
  (∀ cache e w req,
     resp (Part001.POST cache e req w) = not_configured →
     ∃ body city state,
       req = Some body ∧ Part001.requestSchema_parse body = inr (city, state)
       ∧ fresh Part001.CACHE_TTL (now_lookup w) cache
               (Str.toLowerCase city +:+ "-" +:+ state) = None
       ∧ key_missing e = true).
Proof.
  cbv zeta. repeat apply conj.
  - intros cache e w body location k ent Hloc Hk Hlt.
    apply (POST_hit _ _ _ _ _ _ _ Hloc), fresh_hit; done.
  - intros cache e w [body|]; [|by intros [=]].
    unfold Part000.POST, Part000.POST_try.
    destruct (Part000.locate body) as [err|[location k]] eqn:Hloc;
      [by destruct err; intros [=]|].
    destruct (fresh Part000.CACHE_TTL (now_lookup w) cache k) eqn:Hf;
      [by intros [=]|].
    destruct (key_missing e) eqn:Hk; [eauto 8|].
    repeat case_match; simplify_eq; simpl;
      try match goal with |- context [Part000.POST_catch ?x] => destruct x; simpl end;
      by intros [=].
  - intros cache e w body city state ent Hp Hk Hlt.
    unfold Part001.POST, Part001.POST_try.
    by rewrite Hp, (fresh_hit Part001.CACHE_TTL _ _ _ _ Hk Hlt).
  - intros cache e w [body|]; [|by intros [=]].
    unfold Part001.POST, Part001.POST_try.
    destruct (Part001.requestSchema_parse body) as [err|[city state]] eqn:Hp;
      [by destruct err; intros [=]|].
    destruct (fresh Part001.CACHE_TTL (now_lookup w) cache _) eqn:Hf;
      [by intros [=]|].
    destruct (key_missing e) eqn:Hk; [eauto 8|].
    repeat case_match; simplify_eq; simpl;
      try match goal with |- context [Part001.POST_catch ?x] => destruct x; simpl end;
      by intros [=].
Qed.

Lemma failure_status_mapping_witness :
  status (resp (Part000.POST ∅ Sample.configured (Some Sample.nowhere)
                             (Sample.succeeding 0))) = 400
  ∧ status (resp (Part000.POST ∅ Sample.placeholder (Some Sample.austin)
                               (Sample.succeeding 0))) = 500
  ∧ status (resp (Part000.POST ∅ Sample.configured (Some Sample.austin)
                               (Sample.answering 0 503 BodyNotJson))) = 502
  ∧ status (resp (Part000.POST ∅ Sample.configured (Some Sample.austin)
                               (Sample.timing_out 0))) = 504
  ∧ status (resp (Part000.POST ∅ Sample.configured (Some Sample.austin)
                               (Sample.unreachable 0))) = 500.
Proof.
  assert (Hup : ∀ w, now_lookup w = 0 →
            reaches_upstream ∅ Sample.configured (Some Sample.austin) w
                             "Austin, TX" "austin-TX").
  { intros w Hw. exists Sample.austin. rewrite Hw. repeat split; reflexivity. }
  repeat apply conj.
  - destruct (failure_status_mapping ∅ Sample.configured (Some Sample.nowhere)
                (Sample.succeeding 0)) as (_ & H & _).
    by rewrite (H Sample.nowhere).
  - destruct (failure_status_mapping ∅ Sample.placeholder (Some Sample.austin)
                (Sample.succeeding 0)) as (_ & _ & H & _).
    by rewrite (H Sample.austin "Austin, TX" "austin-TX").
  - destruct (failure_status_mapping ∅ Sample.configured (Some Sample.austin)
                (Sample.answering 0 503 BodyNotJson)) as (_ & _ & _ & H & _).
    destruct (H _ _ (Hup (Sample.answering 0 503 BodyNotJson) eq_refl))
      as (_ & _ & H502 & _).
    by rewrite (H502 503 BodyNotJson).
  - destruct (failure_status_mapping ∅ Sample.configured (Some Sample.austin)
                (Sample.timing_out 0)) as (_ & _ & _ & H & _).
    destruct (H _ _ (Hup (Sample.timing_out 0) eq_refl)) as (H504 & _).
    by rewrite H504.
  - destruct (failure_status_mapping ∅ Sample.configured (Some Sample.austin)
                (Sample.unreachable 0)) as (_ & _ & _ & H & _).
    destruct (H _ _ (Hup (Sample.unreachable 0) eq_refl)) as (_ & H500 & _).
    by rewrite H500.
Defined.

(** C3 as stated does not hold: an upstream answer outside 2xx whose body
    cannot be read gives the generic 500, not 502; and a request body that
    is not JSON, which no schema gets to validate, gives 500, not 400. *)
Lemma failure_class_does_not_fix_the_status :
  ¬ (∀ cache e req w location k st b,
       reaches_upstream cache e req w location k →
       upstream w = FetchResolves st b → ok st = false →
       status (resp (Part000.POST cache e req w)) = 502)
  ∧ ¬ (∀ cache e req w,
         (∀ body, req = Some body → cache_key body = None) →
         status (resp (Part000.POST cache e req w)) = 400).
Proof.
  split.
  - intros H.
    specialize (H ∅ Sample.configured (Some Sample.austin)
                  (Sample.answering 0 503 BodyFails) "Austin, TX" "austin-TX"
                  503 BodyFails).
    discriminate H; [|reflexivity..].
    exists Sample.austin. by repeat split.
  - intros H.
    specialize (H ∅ Sample.configured None (Sample.succeeding 0)).
    discriminate H. by intros body [=].
Qed.

Lemma cached_report_needs_no_credential_witness :
  Part000.POST Sample.austin_at_0 Sample.unconfigured (Some Sample.austin)
               (Sample.succeeding 899999)
  = Run (Response 200 (JObj [("report", Sample.sunny); ("cached", JBool true)]))
        Sample.austin_at_0 []
  ∧ Part001.POST Sample.austin_at_0 Sample.placeholder (Some Sample.austin)
                 (Sample.succeeding 899999)
    = Run (Response 200 (JObj [("report", Sample.sunny); ("cached", JBool true)]))
          Sample.austin_at_0 [].
Proof.
  destruct cached_report_needs_no_credential as (H0 & _ & H1 & _).
  split.
  - apply (H0 _ _ _ _ "Austin, TX" "austin-TX" (Entry Sample.sunny 0));
      [reflexivity | reflexivity | simpl; lia].
  - apply (H1 _ _ _ _ "Austin" "TX" (Entry Sample.sunny 0));
      [reflexivity | reflexivity | simpl; lia].
Defined.

End WeatherFacts.

(** ** The suggestion route past its first guard *)

Section TimeToLive.

Lemma GET_long_query JSON_parse cache e w param :
  2 ≤ Str.len (Str.trim param) →
  Suggest.GET JSON_parse cache e (Some param) w =
  let q := Str.trim param in
  match fresh Suggest.CACHE_TTL (now_lookup w) cache (Str.toLowerCase q) with
  | Some cached => Run (NextResponse_json (Suggest.suggestions_body cached)) cache []
  | None =>
      if key_missing e
      then Run (NextResponse_json (Suggest.suggestions_body [])) cache []
      else
        match Suggest.GET_try JSON_parse cache e q (Str.toLowerCase q) w with
        | (inr r, cache', evs) => Run r cache' evs
        | (inl _, cache', evs) =>
            Run (NextResponse_json (Suggest.suggestions_body [])) cache' evs
        end
  end.
Proof.
  intros Hlen. unfold Suggest.GET. simpl.
  rewrite (len_nonempty (Str.trim param)) by lia.
  by destruct (Z.ltb_spec (Str.len (Str.trim param)) 2); [lia|].
Qed.


End TimeToLive.

(** ** What the weather route accepts *)

Section Validation.


(** A state outside the 51 codes, in any letter case, is turned away in
    city+state mode. *)
Lemma unknown_state_rejected fields s :
  Js.lookup "state" fields = Some (JStr s) →
  (∀ state, Str.toUpperCase s = Some state → ¬ In state US_STATES) →
  Part000.cityStateSchema_parse (JObj fields) = inl ZodError.
Proof.
  intros Hs Hno. unfold Part000.cityStateSchema_parse. rewrite Hs.
  destruct (Js.lookup "city" fields) as [[| | |c| |]|]; try done.
  destruct (Str.toUpperCase s) as [u|]; [|done].
  destruct (US_STATES_has _) eqn:H; [by apply US_STATES_has_In, Hno in H|].
  by rewrite andb_false_r.
Qed.


(** C2, at the input that breaks it. The body
    [{city: "Denver", state: "CO", zip: "abc"}] is accepted: the route
    names the location ["Denver, CO abc"], calls the upstream service,
    stores the report under ["denver-CO-abc"] and answers 200, although
    ["abc"] does not match [^\d{5}$]; the same zip sent alone is turned
    away by the zip-only schema. *)
Theorem city_state_zip_not_validated :
  let r := Part000.POST ∅ Sample.configured (Some Sample.denver_abc)
                        (Sample.succeeding 0) in
  Regex.test zip_re "abc" = false
  ∧ Part000.locate Sample.denver_abc = inr ("Denver, CO abc", "denver-CO-abc")
  ∧ resp r = Response 200 (JObj [("report", Sample.sunny); ("cached", JBool false)])
  ∧ effects r
    = [Fetch (Part000.request_for Sample.configured "Denver, CO abc");
       CacheSet "denver-CO-abc" (Entry Sample.sunny 800)]
  ∧ Part000.locate (JObj [("zip", JStr "abc")]) = inl ZodError.
Proof. repeat split. Qed.

End Validation.

(** ** The two versions of the weather route *)

Section Versions.

(** Without a zip field, [Part000] validates a body as [Part001] does and
    derives the same key. *)
Lemma locate_without_zip body :
  body ≠ JNull → Js.prop body "zip" = None →
  Part000.locate body =
  match Part001.requestSchema_parse body with
  | inl err => inl err
  | inr (city, state) =>
      inr (city +:+ ", " +:+ state, Str.toLowerCase city +:+ "-" +:+ state)
  end.
Proof.
  intros Hnull Hzip. unfold Part000.locate. rewrite Hzip. simpl.
  destruct body as [| | | |?|fields]; try done. simpl in Hzip.
  unfold Part000.cityStateSchema_parse, Part001.requestSchema_parse.
  rewrite Hzip.
  destruct (Js.lookup "city" fields) as [[| | |c| |]|]; try done.
  destruct (Js.lookup "state" fields) as [[| | |s| |]|]; try done.
  destruct (Str.toUpperCase s) as [u|]; [|done].
  destruct (_ && _); [|done]. simpl. by rewrite app_nil_r.
Qed.

(** C8, as the code has it. On a request body that is not JSON, or that
    is not [null] and has no zip field, the two versions give the same
    status, leave the same cache and make the same number of upstream
    calls; their responses are equal, except that each has its own
    wording of the 400 message. The requests they send upstream share
    the credential, the referer, the temperature and the time-out, and
    differ in the model, the system prompt and the token budget. Such a
    body is accepted by both or by neither, under the same cache key. *)
Theorem versions_agree_without_zip cache e req w :
  (req = None ∨ ∃ body, req = Some body ∧ body ≠ JNull ∧ Js.prop body "zip" = None) →
  let r0 := Part000.POST cache e req w in
  let r1 := Part001.POST cache e req w in
  (∀ body, req = Some body →
     cache_key body =
     match Part001.requestSchema_parse body with
     | inl _ => None
     | inr (city, state) => Some (Str.toLowerCase city +:+ "-" +:+ state)
     end)
  ∧ status (resp r0) = status (resp r1)
  ∧ cache_after r0 = cache_after r1
  ∧ upstream_calls (effects r0) = upstream_calls (effects r1)
  ∧ (resp r0 = resp r1
     ∨ resp r0 = Part000.invalid_input ∧ resp r1 = Part001.invalid_input)
  ∧ (∀ location city state,
       let a := Part000.request_for e location in
       let b := Part001.request_for e city state in
       authorization a = authorization b ∧ http_referer a = http_referer b
       ∧ temperature_tenths a = temperature_tenths b
       ∧ timeout_ms a = timeout_ms b
       ∧ model a ≠ model b ∧ system a ≠ system b
       ∧ max_tokens a ≠ max_tokens b).
Proof.
  intros Hreq r0 r1; subst r0 r1.
  split.
  { intros body ->. destruct Hreq as [[=] | (? & [= <-] & Hnull & Hzip)].
    unfold cache_key. rewrite (locate_without_zip _ Hnull Hzip).
    by destruct (Part001.requestSchema_parse body) as [|[]]. }
  split; [|split; [|split; [|split]]];
    try (intros; cbv zeta; simpl; by repeat split);
    (destruct Hreq as [-> | (body & -> & Hnull & Hzip)]; [simpl; by auto|]);
    unfold Part000.POST, Part001.POST, Part000.POST_try, Part001.POST_try;
    rewrite (locate_without_zip _ Hnull Hzip);
    (destruct (Part001.requestSchema_parse body) as [err|[city state]];
     [destruct err; simpl; by auto|]);
    unfold Part001.CACHE_TTL, Part000.CACHE_TTL;
    repeat case_match; simplify_eq; simpl; auto;
    match goal with |- context [Part000.POST_catch ?x] => destruct x; simpl; auto end.
Qed.

Lemma versions_agree_without_zip_witness :
  resp (Part000.POST ∅ Sample.configured (Some Sample.austin) (Sample.succeeding 0))
  = resp (Part001.POST ∅ Sample.configured (Some Sample.austin) (Sample.succeeding 0))
  ∧ cache_after (Part000.POST ∅ Sample.configured (Some Sample.austin)
                              (Sample.succeeding 0))
    = cache_after (Part001.POST ∅ Sample.configured (Some Sample.austin)
                                (Sample.succeeding 0)).
Proof.
  assert (Hreq : Some Sample.austin = None
                 ∨ ∃ body, Some Sample.austin = Some body ∧ body ≠ JNull
                           ∧ Js.prop body "zip" = None).
  { right. exists Sample.austin. by repeat split. }
  destruct (versions_agree_without_zip ∅ Sample.configured (Some Sample.austin)
              (Sample.succeeding 0) Hreq) as (_ & _ & Hcache & _ & Hresp & _).
  split; [|exact Hcache].
  destruct Hresp as [H | [H _]]; [exact H | discriminate H].
Defined.

(** C8 as stated does not hold: a zip-only body is served by [Part000]
    and refused by [Part001]. *)
Lemma zip_only_body_tells_versions_apart :
  ¬ (∀ cache e req w,
       resp (Part000.POST cache e req w) = resp (Part001.POST cache e req w)
       ∧ cache_after (Part000.POST cache e req w)
         = cache_after (Part001.POST cache e req w)).
Proof.
  intros H.
  destruct (H ∅ Sample.configured (Some Sample.zip_80202) (Sample.succeeding 0))
    as [Hresp _].
  vm_compute in Hresp. discriminate Hresp.
Qed.

End Versions.

(** ** The suggestion route *)

Section SuggestFacts.

Variable JSON_parse : string → option json.
Implicit Types (cache : gmap string (entry (list string))) (e : env) (w : world).

Lemma failure_no_array w : suggest_failure JSON_parse w → upstream_array JSON_parse w = None.
Proof.
  unfold upstream_array.
  destruct 1 as [-> | -> | st b -> Hok | st b -> Hb | st data -> Hc
                | st data s -> -> Hs | st data s -> -> -> | st data s j -> -> -> Hj];
    try done.
  - rewrite Hok. by destruct b.
  - destruct b; try done. by destruct (Hb j).
  - destruct (ok st); [|done].
    destruct (first_choice_content data) as [|[[]|]]; try done. by destruct (Hc s).
  - rewrite Hs. by destruct (ok st).
  - destruct (ok st); [|done]. by destruct (Str.is_empty _).
  - destruct (ok st); [|done]. destruct (Str.is_empty _); [done|].
    destruct j; try done. by destruct (Hj items).
Qed.

Lemma no_array_failure w : upstream_array JSON_parse w = None → suggest_failure JSON_parse w.
Proof.
  unfold upstream_array.
  destruct (upstream w) as [| |st b] eqn:Hu;
    [intros _; by apply failure_timeout | intros _; by apply failure_network|].
  destruct (ok st) eqn:Hok; [|intros _; destruct b; by eapply failure_status].
  destruct b as [data| | |]; try (intros _; by eapply failure_body).
  destruct (first_choice_content data) as [err|[[| | |s| |]|]] eqn:Hc;
    try (intros _; eapply failure_no_content; [done | by rewrite Hc]).
  destruct (Str.is_empty (Str.trim s)) eqn:He.
  { intros _. apply is_empty_true in He. by eapply failure_empty_content. }
  destruct (JSON_parse _) as [j|] eqn:Hp; [|intros _; by eapply failure_parse].
  destruct j; try done; intros _; by eapply failure_not_array.
Qed.

(** What [Suggest.GET] does once it calls the upstream service. *)
Lemma GET_fetch cache e param w q :
  asks_upstream cache e param w q →
  Suggest.GET JSON_parse cache e param w =
  let k := Str.toLowerCase q in
  let called := [Fetch (Suggest.request_for e q)] in
  match upstream_array JSON_parse w with
  | Some parsed =>
      let stored := Entry (Suggest.select parsed) (now_store w) in
      Run (NextResponse_json (Suggest.suggestions_body (Suggest.select parsed)))
          (<[k := stored]> cache) (called ++ [CacheSet k stored])
  | None => Run (NextResponse_json (Suggest.suggestions_body [])) cache called
  end.
Proof.
  intros (p & -> & -> & Hlen & Hf & Hk).
  rewrite (GET_long_query _ _ _ _ _ Hlen). cbv zeta. rewrite Hf, Hk.
  unfold Suggest.GET_try, upstream_array, Suggest.trimmed_content.
  destruct (upstream w) as [| |st b]; try done.
  destruct (ok st); simpl; [|by destruct b].
  destruct b as [data| | |]; try done. simpl.
  destruct (first_choice_content data) as [err|[[| | |s| |]|]]; try done.
  destruct (Str.is_empty (Str.trim s)); [done|].
  by destruct (JSON_parse _) as [[]|].
Qed.

(** *** The filter *)

Lemma well_shaped_lang j t :
  Suggest.well_shaped j = Some t → j = JStr t ∧ Regex.lang Suggest.suggestion_re t.
Proof.
  destruct j; try done. simpl.
  destruct (Regex.test Suggest.suggestion_re s) eqn:H; [|done].
  intros [= <-]. split; [done | by apply test_lang].
Qed.

Lemma select_shaped parsed : shaped (Suggest.select parsed).
Proof.
  unfold shaped, Suggest.select. split.
  - apply Forall_take, Forall_forall. intros t Ht.
    apply list_elem_of_omap in Ht as (j & _ & Hj).
    by apply well_shaped_lang in Hj as [_ ?].
  - rewrite length_take. lia.
Qed.

Lemma select_from_parsed parsed t : t ∈ Suggest.select parsed → JStr t ∈ parsed.
Proof.
  unfold Suggest.select. intros Ht%subseteq_take.
  apply list_elem_of_omap in Ht as (j & Hin & Hj).
  by apply well_shaped_lang in Hj as [-> _].
Qed.

Lemma suggestion_shape t :
  Regex.lang Suggest.suggestion_re t ↔
  ∃ city ws st rest,
    t = city +:+ "," +:+ ws +:+ st +:+ rest
    ∧ city ≠ "" ∧ Str.all (λ c, negb (Char.is_line_terminator c)) city = true
    ∧ Str.all Char.is_space ws = true
    ∧ String.length st = 2%nat ∧ Str.all Char.is_upper st = true
    ∧ (rest = ""
       ∨ ∃ gap zip, rest = gap +:+ zip
           ∧ gap ≠ "" ∧ Str.all Char.is_space gap = true
           ∧ String.length zip = 5%nat ∧ Str.all Char.is_digit zip = true).
Proof.
  unfold Suggest.suggestion_re. split.
  - intros (city & t1 & -> & [Hne Hcity]%lang_plus_class & H)%lang_seq_inv.
    apply lang_seq_inv in H as (comma & t2 & -> & (c & -> & Hc)%lang_class_inv & H).
    apply Ascii.eqb_eq in Hc as <-.
    apply lang_seq_inv in H as (ws & t3 & -> & Hws%lang_star_class & H).
    apply lang_seq_inv in H as (st & rest & -> & [Hl Hst]%lang_times_class & H).
    exists city, ws, st, rest. repeat split; try done.
    apply lang_opt in H as [H | ->]; [right | by left].
    apply lang_seq_inv in H
      as (gap & zip & -> & [Hg Hgap]%lang_plus_class & [Hz Hzip]%lang_times_class).
    by exists gap, zip.
  - intros (city & ws & st & rest & -> & Hne & Hcity & Hws & Hl & Hst & Hrest).
    apply Regex.lang_seq; [by apply lang_plus_class|].
    apply (Regex.lang_seq _ _ ","); [by constructor|].
    apply Regex.lang_seq; [by apply lang_star_class|].
    apply Regex.lang_seq; [by apply lang_times_class|].
    apply lang_opt. destruct Hrest as [-> | (gap & zip & -> & Hg & Hgap & Hz & Hzip)];
      [by right | left].
    apply Regex.lang_seq; [by apply lang_plus_class | by apply lang_times_class].
Qed.

(** C5. Whenever the suggestion route handles an upstream response, the
    list it returns, under status 200 and the name [suggestions], holds
    only strings of the language of [^.+,\s*[A-Z]{2}(\s+\d{5})?$] and at
    most six of them: it is the first six of the parsed entries that are
    strings matching the pattern, in their order. The cache only ever
    holds such lists, so the same is true of an answer served from it. *)
Theorem suggestions_shaped_and_capped cache e param w :
  let r := Suggest.GET JSON_parse cache e param w in
  let answer l := Response 200 (JObj [("suggestions", JArr (JStr <$> l))]) in
  (∀ q, asks_upstream cache e param w q →
     ∃ l, resp r = answer l
        ∧ Forall (Regex.lang Suggest.suggestion_re) l
        ∧ (length l ≤ 6)%nat
        ∧ ∀ parsed, upstream_array JSON_parse w = Some parsed →
            l = take 6 (omap (λ j, match j with
                               | JStr t =>
                                   if Regex.test Suggest.suggestion_re t
                                   then Some t else None
                               | _ => None
                               end) parsed)
            ∧ ∀ t, t ∈ l → JStr t ∈ parsed) ∧
  (shaped_cache cache →
     shaped_cache (cache_after r)
     ∧ ∃ l, resp r = answer l ∧ shaped l).
Proof.
  intros r answer; subst r answer. cbv beta. split.
  - intros q Hq. rewrite (GET_fetch _ _ _ _ _ Hq). cbv zeta.
    destruct (upstream_array JSON_parse w) as [parsed|]; simpl.
    + exists (Suggest.select parsed).
      destruct (select_shaped parsed) as [Hall Hlen].
      split; [done|]. split; [done|]. split; [done|].
      intros ? [= <-]. split; [done | apply select_from_parsed].
    + exists []. split; [done|]. split; [constructor|]. split; [simpl; lia | done].
  - intros Hcache.
    assert (Hempty : shaped []) by (split; [constructor | simpl; lia]).
    destruct param as [p|]; [|simpl; eauto].
    destruct (Z.ltb_spec (Str.len (Str.trim p)) 2) as [Hshort|Hlen].
    { unfold Suggest.GET. simpl. destruct (Z.ltb_spec (Str.len (Str.trim p)) 2); [|lia].
      rewrite orb_true_r. simpl; eauto. }
    destruct (fresh Suggest.CACHE_TTL (now_lookup w) cache
                    (Str.toLowerCase (Str.trim p))) as [cached|] eqn:Hf.
    { rewrite (GET_long_query _ _ _ _ _ Hlen). cbv zeta. rewrite Hf. simpl.
      split; [done|]. exists cached. split; [done|].
      apply fresh_Some in Hf as (ent & Hk & _ & <-). by apply (Hcache _ _ Hk). }
    destruct (key_missing e) eqn:Hk.
    { rewrite (GET_long_query _ _ _ _ _ Hlen). cbv zeta. rewrite Hf, Hk. simpl; eauto. }
    rewrite (GET_fetch cache e (Some p) w (Str.trim p)) by (exists p; auto).
    cbv zeta. destruct (upstream_array JSON_parse w) as [parsed|]; simpl; [|eauto].
    split; [|eauto using select_shaped].
    intros k ent. rewrite lookup_insert. case_decide.
    + intros [= <-]. apply select_shaped.
    + apply Hcache.
Qed.

(** C6. [GET] answers 200 with a body [{suggestions: [...]}], a list of
    strings under that one name, on every input; a query of fewer than two
    characters, a missing credential, an upstream time-out or network
    failure, a status outside 2xx, an unreadable body, absent or empty
    content, a parse error and content that is not an array all give the
    empty list. *)
Theorem suggest_never_fails cache e param w :
  let r := Suggest.GET JSON_parse cache e param w in
  let answer (l : list string) :=
    Response 200 (JObj [("suggestions", JArr (JStr <$> l))]) in
  (∃ l : list string, resp r = answer l) ∧
  (param = None ∨ (∃ p, param = Some p ∧ Str.len (Str.trim p) < 2) →
     r = Run (answer []) cache []) ∧
  (∀ p, param = Some p → 2 ≤ Str.len (Str.trim p) →
     fresh Suggest.CACHE_TTL (now_lookup w) cache
           (Str.toLowerCase (Str.trim p)) = None →
     key_missing e = true →
     r = Run (answer []) cache []) ∧
  (∀ q, asks_upstream cache e param w q → suggest_failure JSON_parse w →
     resp r = answer []).
Proof.
  intros r answer; subst r answer. cbv beta.
  assert (Hshort : param = None ∨ (∃ p, param = Some p ∧ Str.len (Str.trim p) < 2) →
            Suggest.GET JSON_parse cache e param w
            = Run (Response 200 (Suggest.suggestions_body [])) cache []).
  { intros [-> | (p & -> & Hlt)]; [done|]. unfold Suggest.GET. simpl.
    destruct (Z.ltb_spec (Str.len (Str.trim p)) 2); [|lia]. by rewrite orb_true_r. }
  assert (Hnokey : ∀ p, param = Some p → 2 ≤ Str.len (Str.trim p) →
            fresh Suggest.CACHE_TTL (now_lookup w) cache
                  (Str.toLowerCase (Str.trim p)) = None →
            key_missing e = true →
            Suggest.GET JSON_parse cache e param w
            = Run (Response 200 (Suggest.suggestions_body [])) cache []).
  { intros p -> Hlen Hf Hk. rewrite (GET_long_query _ _ _ _ _ Hlen). cbv zeta.
    by rewrite Hf, Hk. }
  repeat apply conj; try done.
  - destruct param as [p|]; [|rewrite Hshort by auto; by exists []].
    destruct (Z.ltb_spec (Str.len (Str.trim p)) 2) as [Hlt|Hlen];
      [rewrite Hshort by eauto; by exists []|].
    destruct (fresh Suggest.CACHE_TTL (now_lookup w) cache
                    (Str.toLowerCase (Str.trim p))) as [cached|] eqn:Hf.
    { rewrite (GET_long_query _ _ _ _ _ Hlen). cbv zeta. rewrite Hf. by exists cached. }
    destruct (key_missing e) eqn:Hk;
      [rewrite (Hnokey p) by auto; by exists []|].
    rewrite (GET_fetch cache e (Some p) w (Str.trim p)) by (exists p; auto).
    cbv zeta. destruct (upstream_array JSON_parse w) as [parsed|];
      [by exists (Suggest.select parsed) | by exists []].
  - intros q Hq Hfail. rewrite (GET_fetch _ _ _ _ _ Hq). cbv zeta.
    by rewrite (failure_no_array _ Hfail).
Qed.

Lemma select_none parsed :
  Forall (λ j, Suggest.well_shaped j = None) parsed → Suggest.select parsed = [].
Proof.
  unfold Suggest.select. induction 1 as [|j parsed Hj _ IH]; [done|].
  simpl. by rewrite Hj.
Qed.

Lemma GET_cases cache e param w :
  (∃ l, Suggest.GET JSON_parse cache e param w
        = Run (Response 200 (Suggest.suggestions_body l)) cache [])
  ∨ ∃ q, asks_upstream cache e param w q.
Proof.
  destruct param as [p|]; [|left; by exists []].
  destruct (Z.ltb_spec (Str.len (Str.trim p)) 2) as [Hlt|Hlen].
  { left. exists []. unfold Suggest.GET. simpl.
    destruct (Z.ltb_spec (Str.len (Str.trim p)) 2); [|lia]. by rewrite orb_true_r. }
  rewrite (GET_long_query _ _ _ _ _ Hlen). cbv zeta.
  destruct (fresh Suggest.CACHE_TTL (now_lookup w) cache
                  (Str.toLowerCase (Str.trim p))) as [cached|] eqn:Hf; [left; eauto|].
  destruct (key_missing e) eqn:Hk; [left; by exists []|].
  right. exists (Str.trim p), p. auto.
Qed.

Lemma well_shaped_none j :
  (∀ t, j = JStr t → ¬ Regex.lang Suggest.suggestion_re t) →
  Suggest.well_shaped j = None.
Proof.
  intros H. destruct j as [| | |t| |]; try done. cbn.
  destruct (Regex.test Suggest.suggestion_re t) eqn:Ht; [|done].
  apply test_lang in Ht. by destruct (H t eq_refl).
Qed.

(** C10. The suggestion cache is written on one path only: after a 2xx
    upstream answer whose cleaned content parses as an array, and what is
    stored under the lower-cased query, and returned, is the list of the
    parsed strings that match the pattern, cut to six, also when that
    list is empty. A query whose parsed entries all fail the filter is
    thus stored as the empty list, and a request for the same key in the
    next 24 hours gets the empty list with no upstream call. No failing
    exchange writes the cache. *)
Theorem suggestion_cache_written_on_success_only cache e param w :
  let r := Suggest.GET JSON_parse cache e param w in
  let answer (l : list string) :=
    Response 200 (JObj [("suggestions", JArr (JStr <$> l))]) in
  let filtered parsed :=
    take 6 (omap (λ j, match j with
                               | JStr t =>
                                   if Regex.test Suggest.suggestion_re t
                                   then Some t else None
                               | _ => None
                               end) parsed) in
  (∀ k ent, In (CacheSet k ent) (effects r) →
     ∃ q parsed,
       asks_upstream cache e param w q
       ∧ upstream_array JSON_parse w = Some parsed
       ∧ k = Str.toLowerCase q
       ∧ ent = Entry (filtered parsed) (now_store w)
       ∧ resp r = answer (filtered parsed)) ∧
  (∀ q parsed,
     asks_upstream cache e param w q →
     upstream_array JSON_parse w = Some parsed →
     let stored := Entry (filtered parsed) (now_store w) in
     effects r = [Fetch (Suggest.request_for e q); CacheSet (Str.toLowerCase q) stored]
     ∧ cache_after r = <[Str.toLowerCase q := stored]> cache
     ∧ (Forall (λ j, ∀ t, j = JStr t → ¬ Regex.lang Suggest.suggestion_re t) parsed →
        filtered parsed = []
        ∧ ∀ e' w' p',
            Str.toLowerCase (Str.trim p') = Str.toLowerCase q →
            now_lookup w' - now_store w < 24 * 60 * 60 * 1000 →
            Suggest.GET JSON_parse (cache_after r) e' (Some p') w'
            = Run (answer []) (cache_after r) [])) ∧
  (suggest_failure JSON_parse w →
     cache_after r = cache ∧ cache_writes (effects r) = 0%nat).
Proof.
  intros r answer filtered; subst r answer filtered. cbv beta.
  change (λ parsed, take 6 (omap _ parsed)) with Suggest.select.
  fold Suggest.well_shaped. repeat apply conj.
  - intros k ent Hin.
    destruct (GET_cases cache e param w) as [[l Hl] | [q Hq]];
      [rewrite Hl in Hin; by destruct Hin|].
    rewrite (GET_fetch _ _ _ _ _ Hq) in Hin |- *. cbv zeta in Hin |- *.
    destruct (upstream_array JSON_parse w) as [parsed|] eqn:Ha; simpl in Hin.
    + destruct Hin as [[=] | [[= <- <-] | []]]. by exists q, parsed.
    + by destruct Hin as [[=] | []].
  - intros q parsed Hq Ha stored; subst stored.
    rewrite (GET_fetch _ _ _ _ _ Hq). cbv zeta. rewrite Ha. simpl.
    split; [done|]. split; [done|]. intros Hnone.
    assert (Hsel : Suggest.select parsed = []).
    { apply select_none. eapply Forall_impl; [exact Hnone|].
      intros j Hj. by apply well_shaped_none. }
    split; [exact Hsel|]. intros e' w' p' Hkey Hlt.
    destruct Hq as (p & _ & -> & Hlen & _).
    assert (Hlen' : 2 ≤ Str.len (Str.trim p')).
    { unfold Str.len in *.
      rewrite <- (map_length Char.to_lower (Str.trim p')).
      fold (Str.toLowerCase (Str.trim p')). rewrite Hkey.
      unfold Str.toLowerCase. by rewrite map_length. }
    rewrite (GET_long_query _ _ _ _ _ Hlen'). cbv zeta. rewrite Hkey.
    rewrite (fresh_hit Suggest.CACHE_TTL _ _ _
               (Entry (Suggest.select parsed) (now_store w)));
      [by rewrite Hsel | apply lookup_insert_eq | done].
  - intros Hfail.
    destruct (GET_cases cache e param w) as [[l Hl] | [q Hq]]; [by rewrite Hl|].
    rewrite (GET_fetch _ _ _ _ _ Hq). cbv zeta.
    by rewrite (failure_no_array _ Hfail).
Qed.

End SuggestFacts.

(** The suggestion route on sample exchanges. *)
Section SuggestSamples.

Lemma asks_upstream_sample w p :
  now_lookup w = 0 → 2 ≤ Str.len (Str.trim p) →
  asks_upstream ∅ Sample.configured (Some p) w (Str.trim p).
Proof. intros Hw Hlen. exists p. rewrite Hw. by repeat split. Qed.

Lemma suggestions_shaped_and_capped_witness :
  resp (Suggest.GET Sample.parse_table ∅ Sample.configured (Some " den ") Sample.fenced)
  = Response 200 (JObj [("suggestions", JArr [JStr "Denver, CO"; JStr "Denver, CO 80202"])])
  ∧ shaped ["Denver, CO"; "Denver, CO 80202"].
Proof.
  destruct (suggestions_shaped_and_capped Sample.parse_table ∅ Sample.configured
              (Some " den ") Sample.fenced) as [H _].
  destruct (H "den") as (l & Hresp & Hall & Hlen & Hsel).
  { apply (asks_upstream_sample Sample.fenced " den "); [reflexivity | by vm_compute]. }
  destruct (Hsel _ eq_refl) as [Hl _].
  vm_compute in Hl. subst l. by repeat split.
Defined.

Lemma suggest_never_fails_witness :
  Suggest.GET Sample.parse_table ∅ Sample.configured (Some "d") Sample.fenced
  = Run (Response 200 (JObj [("suggestions", JArr [])])) ∅ []
  ∧ Suggest.GET Sample.parse_table ∅ Sample.placeholder (Some "den") Sample.fenced
    = Run (Response 200 (JObj [("suggestions", JArr [])])) ∅ []
  ∧ resp (Suggest.GET Sample.parse_table ∅ Sample.configured (Some "den")
                      (Sample.timing_out 0))
    = Response 200 (JObj [("suggestions", JArr [])])
  ∧ resp (Suggest.GET Sample.parse_table ∅ Sample.configured (Some "den")
                      (Sample.answering 0 429 BodyNotJson))
    = Response 200 (JObj [("suggestions", JArr [])]).
Proof.
  repeat apply conj.
  - destruct (suggest_never_fails Sample.parse_table ∅ Sample.configured
                (Some "d") Sample.fenced) as (_ & H & _).
    apply H. right. exists "d". split; [reflexivity | by vm_compute].
  - destruct (suggest_never_fails Sample.parse_table ∅ Sample.placeholder
                (Some "den") Sample.fenced) as (_ & _ & H & _).
    apply (H "den"); [reflexivity | by vm_compute | reflexivity | reflexivity].
  - destruct (suggest_never_fails Sample.parse_table ∅ Sample.configured
                (Some "den") (Sample.timing_out 0)) as (_ & _ & _ & H).
    apply (H "den").
    + apply (asks_upstream_sample (Sample.timing_out 0) "den");
        [reflexivity | by vm_compute].
    + by apply failure_timeout.
  - destruct (suggest_never_fails Sample.parse_table ∅ Sample.configured
                (Some "den") (Sample.answering 0 429 BodyNotJson)) as (_ & _ & _ & H).
    apply (H "den").
    + apply (asks_upstream_sample (Sample.answering 0 429 BodyNotJson) "den");
        [reflexivity | by vm_compute].
    + by apply (failure_status _ _ 429 BodyNotJson).
Defined.

Lemma suggestion_cache_written_on_success_only_witness :
  cache_after (Suggest.GET Sample.parse_table ∅ Sample.configured (Some "XQ") Sample.unshaped)
  = {[ "xq" := Entry [] 800 ]}
  ∧ Suggest.GET Sample.parse_table
      (cache_after (Suggest.GET Sample.parse_table ∅ Sample.configured
                                (Some "XQ") Sample.unshaped))
      Sample.unconfigured (Some "xq") (Sample.timing_out 86400799)
    = Run (Response 200 (JObj [("suggestions", JArr [])]))
          (cache_after (Suggest.GET Sample.parse_table ∅ Sample.configured
                                    (Some "XQ") Sample.unshaped)) []
  ∧ cache_after (Suggest.GET Sample.parse_table ∅ Sample.configured (Some "den")
                             (Sample.timing_out 0)) = ∅.
Proof.
  destruct (suggestion_cache_written_on_success_only Sample.parse_table ∅
              Sample.configured (Some "XQ") Sample.unshaped) as (_ & H & _).
  destruct (H "XQ" [JStr "no match"]) as (_ & Hcache & Hempty).
  { apply (asks_upstream_sample Sample.unshaped "XQ"); [reflexivity | by vm_compute]. }
  { reflexivity. }
  destruct Hempty as [_ Hnext].
  { constructor; [|constructor]. intros t [= <-] Hl%test_lang. discriminate Hl. }
  repeat apply conj.
  - exact Hcache.
  - apply Hnext; [reflexivity | simpl; lia].
  - destruct (suggestion_cache_written_on_success_only Sample.parse_table ∅
                Sample.configured (Some "den") (Sample.timing_out 0)) as (_ & _ & Hf).
    apply Hf. by apply failure_timeout.
Defined.

End SuggestSamples.

(** ** The location parser of the page *)

Section PageFacts.

Lemma zip_re_five_digits s : Regex.test zip_re s = true ↔ five_digits s.
Proof. unfold zip_re, five_digits. rewrite test_lang. apply lang_times_class. Qed.

Lemma state_zip_shape s :
  Regex.lang Page.state_zip_re s ↔ ∃ st zip, state_and_zip s st zip.
Proof.
  unfold Page.state_zip_re, state_and_zip, five_digits. split.
  - intros (st & t1 & -> & [Hl Hst]%lang_times_class & H)%lang_seq_inv.
    apply lang_seq_inv in H
      as (gap & zip & -> & [Hg Hgap]%lang_plus_class & [Hz Hzip]%lang_times_class).
    exists st, zip, gap. by repeat split.
  - intros (st & zip & gap & -> & Hl & Hst & Hg & Hgap & Hz & Hzip).
    apply Regex.lang_seq; [by apply lang_times_class|].
    apply Regex.lang_seq; [by apply lang_plus_class | by apply lang_times_class].
Qed.

(** The groups of a match are the code and the zip. *)
Lemma state_zip_match_groups after st zip :
  state_and_zip after st zip → Page.state_zip_match after = Some (st, zip).
Proof.
  intros Hshape. unfold Page.state_zip_match.
  assert (Ht : Regex.test Page.state_zip_re after = true).
  { apply test_lang, state_zip_shape. eauto. }
  rewrite Ht. destruct Hshape as (gap & -> & Hl & _ & _ & _ & Hz & _).
  f_equal. f_equal.
  - rewrite <- Hl. apply take_app.
  - rewrite <- app_assoc.
    replace (String.length ((st +:+ gap) +:+ zip) - 5)%nat
      with (String.length (st +:+ gap)) by (rewrite !length_app; lia).
    apply drop_app.
Qed.

Lemma state_zip_match_none after :
  ¬ (∃ st zip, state_and_zip after st zip) → Page.state_zip_match after = None.
Proof.
  intros Hno. unfold Page.state_zip_match.
  destruct (Regex.test Page.state_zip_re after) eqn:Ht; [|done].
  by apply test_lang, state_zip_shape in Ht.
Qed.

(** *** The last comma *)

Lemma lastIndexOf_absent s :
  no_comma s → Str.lastIndexOf ","%char s = -1.
Proof.
  unfold no_comma. induction s as [|d s IH]; cbn [Str.all Str.lastIndexOf]; [done|].
  intros [Hd Hs]%andb_prop. rewrite (IH Hs).
  unfold Char.is_char in Hd. destruct (Ascii.eqb _ d); done.
Qed.

Lemma lastIndexOf_negative s :
  Str.lastIndexOf ","%char s < 0 → no_comma s.
Proof.
  unfold no_comma. induction s as [|d s IH]; cbn [Str.all Str.lastIndexOf]; [done|].
  destruct (Z.leb_spec 0 (Str.lastIndexOf ","%char s)) as [Hs|Hs]; [lia|].
  unfold Char.is_char. destruct (Ascii.eqb _ d); [lia|]. intros _. by apply IH.
Qed.

Lemma lastIndexOf_split left right :
  no_comma right →
  Str.lastIndexOf ","%char (left +:+ String ","%char right) = Str.len left.
Proof.
  intros Hr. unfold Str.len.
  induction left as [|d left IH]; cbn [String.append Str.lastIndexOf String.length].
  - rewrite (lastIndexOf_absent _ Hr). by rewrite Ascii.eqb_refl.
  - rewrite IH. destruct (Z.leb_spec 0 (Z.of_nat (String.length left))); lia.
Qed.

(** A comma found at [i] splits the string there, and nothing after it
    is a comma. *)
Lemma lastIndexOf_found s : ∀ i,
  Str.lastIndexOf ","%char s = i → 0 ≤ i →
  s = Str.slice_to i s +:+ String ","%char (Str.slice_from (i + 1) s)
  ∧ Str.len (Str.slice_to i s) = i
  ∧ no_comma (Str.slice_from (i + 1) s).
Proof.
  unfold Str.slice_to, Str.slice_from, Str.len.
  induction s as [|d s IH]; cbn [Str.lastIndexOf]; intros i <- Hi; [lia|].
  destruct (Z.leb_spec 0 (Str.lastIndexOf ","%char s)) as [Hs|Hs].
  - destruct (IH _ eq_refl Hs) as (Heq & Hlen & Hno).
    replace (Z.to_nat (Str.lastIndexOf ","%char s + 1 + 1))
      with (S (Z.to_nat (Str.lastIndexOf ","%char s + 1))) by lia.
    replace (Z.to_nat (Str.lastIndexOf ","%char s + 1))
      with (S (Z.to_nat (Str.lastIndexOf ","%char s))) in * by lia.
    set (n := Z.to_nat (Str.lastIndexOf ","%char s)) in *.
    change (Str.drop (S (S n)) (String d s)) with (Str.drop (S n) s).
    change (Str.take (S n) (String d s)) with (String d (Str.take n s)).
    cbn [String.append String.length].
    rewrite <- Heq. repeat split; [lia | done].
  - destruct (Ascii.eqb_spec ","%char d) as [<-|]; [|lia].
    change (Z.to_nat (0 + 1)) with 1%nat. change (Z.to_nat 0) with 0%nat.
    cbn [Str.take Str.drop String.append String.length].
    repeat split. replace (Str.drop 0 s) with s by (by destruct s).
    by apply lastIndexOf_negative.
Qed.

(** *** Trimming *)

Lemma drop_while_head p s a r :
  Str.drop_while p s = String a r → p a = false.
Proof.
  induction s as [|c s IH]; cbn [Str.drop_while]; [done|].
  destruct (p c) eqn:Hc; [done|]. by intros [= <- _].
Qed.

Lemma trimEnd_head a s :
  Char.is_space a = false → ∃ r, Str.trimEnd (String a s) = String a r.
Proof.
  intros Ha. cbn [Str.trimEnd]. destruct (Str.trimEnd s); [|eauto].
  rewrite Ha. eauto.
Qed.

(** A trimmed string does not start with white space. *)
Lemma trim_head s a r : Str.trim s = String a r → Char.is_space a = false.
Proof.
  unfold Str.trim, Str.trimStart.
  destruct (Str.drop_while Char.is_space s) as [|b u] eqn:Hu; [done|].
  apply drop_while_head in Hu.
  destruct (trimEnd_head b u Hu) as [r' ->]. by intros [= <- _].
Qed.

Lemma trim_nonspace_head a s :
  Char.is_space a = false → ∃ r, Str.trim (String a s) = String a r.
Proof.
  intros Ha. unfold Str.trim, Str.trimStart. cbn [Str.drop_while]. rewrite Ha.
  by apply trimEnd_head.
Qed.

(** *** [handleSubmit] on typed text *)

Lemma nonempty_length s : s ≠ "" → 0 < Str.len s.
Proof. destruct s; unfold Str.len; simpl; [done | lia]. Qed.

Lemma length_nonempty s n : String.length s = S n → Str.is_empty s = false.
Proof. by destruct s. Qed.

(** The values of [city], [state] and [zip] when the trimmed text is not
    a zip and has its last comma after [left]. *)
Lemma parse_typed_split query left right :
  Regex.test zip_re (Str.trim query) = false →
  Str.trim query = left +:+ String ","%char right →
  no_comma right → left ≠ "" →
  Str.is_empty (Str.trim left) = false ∧
  Page.parse "" "" "" query =
  match Str.toUpperCase (Str.trim right) with
  | Some after =>
      match Page.state_zip_match after with
      | Some (st, zip) => Some (Str.trim left, Page.Narrow st, zip)
      | None =>
          if Str.len after =? 2
          then Some (Str.trim left, Page.Narrow after, "")
          else None
      end
  | None =>
      if Z.of_nat (Str.toUpperCase_length (Str.trim right)) =? 2
      then Some (Str.trim left, Page.Wide, "")
      else None
  end.
Proof.
  intros Hzip Ht Hright Hleft.
  assert (Hcity : ∃ a r, Str.trim left = String a r).
  { destruct left as [|a left]; [done|]. cbn [String.append] in Ht.
    apply trim_head in Ht. destruct (trim_nonspace_head a left Ht) as [r Hr]. eauto. }
  destruct Hcity as (a & r & Hcity). split; [by rewrite Hcity|].
  unfold Page.parse. cbn [Str.is_empty orb]. rewrite Hzip, Ht.
  rewrite (lastIndexOf_split _ _ Hright).
  pose proof (nonempty_length _ Hleft) as Hpos.
  destruct (Z.ltb_spec 0 (Str.len left)); [|lia].
  unfold Str.slice_to, Str.slice_from, Str.len.
  replace (Z.to_nat (Z.of_nat (String.length left) + 1))
    with (S (String.length left)) by lia.
  rewrite Nat2Z.id, take_app.
  replace (Str.drop (S (String.length left)) (left +:+ String ","%char right))
    with right.
  2:{ clear. induction left as [|d left IH]; [by destruct right | exact IH]. }
  rewrite Hcity. cbn [String.length Str.is_empty andb].
  destruct (Z.ltb_spec 0 (Z.of_nat (S (String.length r)))); [|lia].
  cbn [andb].
  destruct (Str.toUpperCase (Str.trim right)) as [after|].
  - destruct (Page.state_zip_match after) as [[st zip]|]; [done|].
    by destruct (_ =? 2).
  - by destruct (_ =? 2).
Qed.

Lemma parse_typed_no_split query :
  Regex.test zip_re (Str.trim query) = false →
  (∀ left right, Str.trim query = left +:+ String ","%char right → left = "") →
  Page.parse "" "" "" query = None.
Proof.
  intros Hzip Hno. unfold Page.parse. cbn [Str.is_empty orb]. rewrite Hzip.
  destruct (Z.ltb_spec 0 (Str.lastIndexOf ","%char (Str.trim query))) as [Hpos|]; [|done].
  destruct (lastIndexOf_found (Str.trim query) _ eq_refl) as (Heq & Hlen & _); [lia|].
  apply Hno in Heq. rewrite Heq in Hlen. unfold Str.len in Hlen. simpl in Hlen. lia.
Qed.

(** C7, as the code has it. On typed text, [handleSubmit] applies these
    rules in order to the trimmed input: five digits are sent as a zip
    alone; otherwise the input is split at its last comma, which must not
    be its first character, the trimmed left part being the city; when
    the right part, trimmed and upper-cased, is a two-letter code, white
    space and five digits, city, state and zip are sent; else when it has
    exactly two characters, of any kind, city and state are sent; in every
    other case nothing is sent and the error is reported. Where the
    upper-cased right part has a code unit above 255, it is no code and
    zip, and city and state are sent when it has two code units. *)
Theorem typed_location_parsing query :
  let t := Str.trim query in
  (five_digits t → Page.submit_typed query = Page.Sent (JObj [("zip", JStr t)])) ∧
  (¬ five_digits t →
     (∀ left right,
        t = left +:+ "," +:+ right → no_comma right → left ≠ "" →
        let city := Str.trim left in
        (∀ after, Str.toUpperCase (Str.trim right) = Some after →
           (∀ st zip, state_and_zip after st zip →
              Page.submit_typed query
              = Page.Sent (JObj [("city", JStr city); ("state", JStr st);
                                 ("zip", JStr zip)])) ∧
           (¬ (∃ st zip, state_and_zip after st zip) → String.length after = 2%nat →
              Page.submit_typed query
              = Page.Sent (JObj [("city", JStr city); ("state", JStr after)])) ∧
           (¬ (∃ st zip, state_and_zip after st zip) → String.length after ≠ 2%nat →
              Page.submit_typed query = Page.InvalidLocation)) ∧
        (Str.toUpperCase (Str.trim right) = None →
           Page.submit_typed query
           = if Nat.eqb (Str.toUpperCase_length (Str.trim right)) 2
             then Page.SentWide city ""
             else Page.InvalidLocation)) ∧
     ((∀ left right, t = left +:+ "," +:+ right → left = "") →
        Page.submit_typed query = Page.InvalidLocation)) ∧
  Page.submit_typed "80202" = Page.Sent (JObj [("zip", JStr "80202")]) ∧
  Page.submit_typed "Denver, CO"
  = Page.Sent (JObj [("city", JStr "Denver"); ("state", JStr "CO")]) ∧
  Page.submit_typed "Denver, CO 80202"
  = Page.Sent (JObj [("city", JStr "Denver"); ("state", JStr "CO");
                     ("zip", JStr "80202")]) ∧
  Page.submit_typed "gibberish" = Page.InvalidLocation.
Proof.
  intros t; subst t. split; [|split; [|by repeat split]].
  - intros Hfive. pose proof Hfive as Ht%zip_re_five_digits.
    unfold Page.submit_typed, Page.handleSubmit, Page.parse.
    cbn [Str.is_empty orb]. rewrite Ht. unfold Page.requestBody.
    destruct Hfive as [Hl _]. by rewrite (length_nonempty _ _ Hl).
  - intros Hfive.
    assert (Ht : Regex.test zip_re (Str.trim query) = false).
    { destruct (Regex.test zip_re _) eqn:Ht; [|done]. by apply zip_re_five_digits in Ht. }
    split; [|intros Hno; unfold Page.submit_typed, Page.handleSubmit;
             by rewrite (parse_typed_no_split _ Ht Hno)].
    intros left right Heq Hright Hleft city; subst city.
    destruct (parse_typed_split _ _ _ Ht Heq Hright Hleft) as [Hcity Hparse].
    unfold Page.submit_typed, Page.handleSubmit. rewrite Hparse.
    split.
    + intros after ->. repeat apply conj.
      * intros st zip Hshape. rewrite (state_zip_match_groups _ _ _ Hshape).
        destruct Hshape as (_ & _ & Hst & _ & _ & _ & [Hz _]).
        unfold Page.requestBody.
        by rewrite Hcity, (length_nonempty _ _ Hst), (length_nonempty _ _ Hz).
      * intros Hno Hlen. rewrite (state_zip_match_none _ Hno).
        destruct (Z.eqb_spec (Str.len after) 2) as [|Hne];
          [|unfold Str.len in Hne; lia].
        unfold Page.requestBody. by rewrite Hcity, (length_nonempty _ _ Hlen).
      * intros Hno Hlen. rewrite (state_zip_match_none _ Hno).
        destruct (Z.eqb_spec (Str.len after) 2) as [H2|]; [|done].
        unfold Str.len in H2. lia.
    + intros ->.
      destruct (Nat.eqb_spec (Str.toUpperCase_length (Str.trim right)) 2) as [->|Hne];
        [done|].
      destruct (Z.eqb_spec (Z.of_nat (Str.toUpperCase_length (Str.trim right))) 2);
        [lia | done].
Qed.

Lemma typed_location_parsing_witness :
  Page.submit_typed "  austin , tx   73301 "
  = Page.Sent (JObj [("city", JStr "austin"); ("state", JStr "TX");
                     ("zip", JStr "73301")])
  ∧ Page.submit_typed "Austin, T1"
    = Page.Sent (JObj [("city", JStr "Austin"); ("state", JStr "T1")])
  ∧ Page.submit_typed " 73301 " = Page.Sent (JObj [("zip", JStr "73301")])
  ∧ Page.submit_typed ",TX" = Page.InvalidLocation.
Proof.
  repeat apply conj.
  - destruct (typed_location_parsing "  austin , tx   73301 ") as (_ & H & _).
    destruct H as [H _]; [by intros [[=] _]|].
    destruct (H "austin " " tx   73301") as (Hup & _); [done | done | done|].
    destruct (Hup "TX   73301" eq_refl) as (Hzip & _).
    apply (Hzip "TX" "73301"). exists "   ". by repeat split.
  - destruct (typed_location_parsing "Austin, T1") as (_ & H & _).
    destruct H as [H _]; [by intros [[=] _]|].
    destruct (H "Austin" " T1") as (Hup & _); [done | done | done|].
    destruct (Hup "T1" eq_refl) as (_ & Htwo & _).
    apply Htwo; [|done].
    intros Hshape. apply state_zip_shape, test_lang in Hshape. discriminate Hshape.
  - destruct (typed_location_parsing " 73301 ") as (H & _).
    apply H. by split.
  - destruct (typed_location_parsing ",TX") as (_ & H & _).
    destruct H as [_ H]; [by intros [[=] _]|].
    apply H. intros [|c left] right; [done|]. intros [= <- Heq].
    exfalso. revert Heq. clear.
    destruct left as [|? [|? [|? left]]]; intros [=].
Defined.

(** C7 as stated does not hold: ["Denver, 12"] has a right part that is
    neither a code and a zip nor two letters, and is sent all the same. *)
Lemma two_characters_pass_for_a_state :
  ¬ (∀ query left right after,
       Str.trim query = left +:+ "," +:+ right → no_comma right →
       Str.toUpperCase (Str.trim right) = Some after →
       ¬ five_digits (Str.trim query) →
       ¬ (∃ st zip, state_and_zip after st zip) → ¬ two_letters after →
       Page.submit_typed query = Page.InvalidLocation).
Proof.
  intros H. specialize (H "Denver, 12" "Denver" " 12" "12" eq_refl eq_refl eq_refl).
  discriminate H.
  - by intros [[=] _].
  - intros Hshape. apply state_zip_shape, test_lang in Hshape. discriminate Hshape.
  - by intros [_ [=]].
Qed.

End PageFacts.

(** * Further properties of the routes *)

Section WeatherCache.

Implicit Types (cache : gmap string (entry json)) (e : env) (w : world).




Lemma locate_complete body location k :
  zip_only_location body location k ∨ city_state_location body location k →
  Part000.locate body = inr (location, k).
Proof.
  intros [(fields & zip & -> & Hz & Hfive & Hcity & -> & ->)
         |(fields & city & s & st & zip & -> & Hc & Hlen & Hs & Hu & Hin & Hz & -> & ->)].
  - unfold Part000.locate, Part000.zipOnlySchema_parse, Js.prop.
    rewrite Hz, Hcity. cbn [Js.truthy].
    destruct Hfive as [Hl Hd]. rewrite (length_nonempty _ _ Hl). cbn [negb andb].
    assert (Ht : Regex.test zip_re zip = true) by by apply zip_re_five_digits.
    by rewrite Ht.
  - unfold Part000.locate, Part000.cityStateSchema_parse, Js.prop.
    rewrite Hc, Hs, Hz, Hu. cbn [Js.truthy].
    rewrite (len_nonempty city) by lia. rewrite andb_false_r.
    apply US_STATES_has_In in Hin. rewrite Hin.
    destruct (Z.leb_spec 1 (Str.len city)); [|lia].
    destruct (Z.leb_spec (Str.len city) 100); [|lia].
    cbn [andb]. destruct zip as [[|]|]; simpl; by rewrite ?app_nil_r.
Qed.

(** *** Keys and locations *)







Lemma eq_nocase_of_lower s : ∀ t,
  Str.toLowerCase s = Str.toLowerCase t → Str.eq_nocase s t = true.
Proof.
  induction s as [|a s IH]; intros [|b t]; cbn [Str.toLowerCase Str.map Str.eq_nocase];
    try done.
  intros [= Hc Hs]. unfold Char.eq_nocase. rewrite Hc, Ascii.eqb_refl. by apply IH.
Qed.






(** *** The runs of the two versions *)

(** A run either leaves the cache alone, having called the upstream
    service at most once, or it is the successful miss: one call, then
    the report stored under the key of the request and returned. *)
Lemma POST_run cache e req w :
  let r := Part000.POST cache e req w in
  (cache_after r = cache
   ∧ (effects r = []
      ∨ key_missing e = false
        ∧ status (resp r) ≠ 200
        ∧ ∃ location, effects r = [Fetch (Part000.request_for e location)]))
  ∨ (∃ body location k report,
       req = Some body ∧ Part000.locate body = inr (location, k)
       ∧ key_missing e = false ∧ Js.truthy (Some report) = true
       ∧ resp r = NextResponse_json (Part000.report_body report false)
       ∧ cache_after r = <[k := Entry report (now_store w)]> cache
       ∧ effects r = [Fetch (Part000.request_for e location);
                      CacheSet k (Entry report (now_store w))]).
Proof.
  intros r; subst r.
  destruct req as [body|]; [|no_write].
  destruct (Part000.locate body) as [err|[location k]] eqn:Hloc.
  { rewrite (POST_thrown _ _ _ _ _ Hloc). no_write. }
  destruct (fresh Part000.CACHE_TTL (now_lookup w) cache k) as [report|] eqn:Hf.
  { rewrite (POST_hit _ _ _ _ _ _ _ Hloc Hf). no_write. }
  destruct (key_missing e) eqn:Hk.
  { rewrite (POST_no_key _ _ _ _ _ _ Hloc Hf Hk). no_write. }
  rewrite (POST_fetch cache e w (Some body) location k) by (exists body; auto).
  cbv zeta.
  destruct (upstream w) as [| |st b]; [no_write | no_write |].
  destruct (ok st).
  - destruct (response_json b) as [err|data]; [destruct err; no_write|].
    destruct (first_choice_content data) as [err|report]; [destruct err; no_write|].
    destruct (Js.truthy report) eqn:Ht; [|no_write].
    right. exists body, location, k, (default JNull report).
    destruct report as [report|]; [|done]. by repeat split.
  - destruct (response_text b) as [err|]; [destruct err|]; no_write.
Qed.

Lemma POST1_run cache e req w :
  let r := Part001.POST cache e req w in
  (cache_after r = cache
   ∧ (effects r = []
      ∨ key_missing e = false
        ∧ status (resp r) ≠ 200
        ∧ ∃ city state, effects r = [Fetch (Part001.request_for e city state)]))
  ∨ (∃ body city state report,
       req = Some body ∧ Part001.requestSchema_parse body = inr (city, state)
       ∧ key_missing e = false ∧ Js.truthy (Some report) = true
       ∧ resp r = NextResponse_json (Part000.report_body report false)
       ∧ cache_after r
         = <[Str.toLowerCase city +:+ "-" +:+ state := Entry report (now_store w)]> cache
       ∧ effects r = [Fetch (Part001.request_for e city state);
                      CacheSet (Str.toLowerCase city +:+ "-" +:+ state)
                               (Entry report (now_store w))]).
Proof.
  intros r; subst r. unfold Part001.POST, Part001.POST_try.
  destruct req as [body|]; [|no_write].
  destruct (Part001.requestSchema_parse body) as [err|[city state]] eqn:Hp;
    [destruct err; no_write|].
  destruct (fresh Part001.CACHE_TTL (now_lookup w) cache _) as [report|] eqn:Hf;
    [no_write|].
  destruct (key_missing e) eqn:Hk; [no_write|].
  destruct (upstream w) as [| |st b]; [no_write | no_write |].
  destruct (ok st); cbn [negb].
  - destruct (response_json b) as [err|data]; [destruct err; no_write|].
    destruct (first_choice_content data) as [err|report]; [destruct err; no_write|].
    destruct (Js.truthy report) eqn:Ht; cbn [negb]; [|no_write].
    right. exists body, city, state, (default JNull report).
    destruct report as [report|]; [|done]. by repeat split.
  - destruct (response_text b) as [err|]; [destruct err|]; no_write.
Qed.

(** X3. Only a successful upstream answer is cached, in both versions of
    the weather route: a response other than 200 leaves the cache as it
    was, and each write stores, under the key of the request and with the
    time of the write, the very report that the response returns with
    [cached: false], which is never an empty one. *)
Theorem only_success_is_cached cache e req w :
  let r0 := Part000.POST cache e req w in
  let r1 := Part001.POST cache e req w in
  (status (resp r0) ≠ 200 → cache_after r0 = cache ∧ cache_writes (effects r0) = 0%nat) ∧
  (∀ k ent, In (CacheSet k ent) (effects r0) →
     (∃ body, req = Some body ∧ cache_key body = Some k)
     ∧ resp r0 = Response 200 (JObj [("report", data ent); ("cached", JBool false)])
     ∧ Js.truthy (Some (data ent)) = true ∧ timestamp ent = now_store w
     ∧ cache_after r0 = <[k := ent]> cache) ∧
  (status (resp r1) ≠ 200 → cache_after r1 = cache ∧ cache_writes (effects r1) = 0%nat) ∧
  (∀ k ent, In (CacheSet k ent) (effects r1) →
     (∃ body city state,
        req = Some body ∧ Part001.requestSchema_parse body = inr (city, state)
        ∧ k = Str.toLowerCase city +:+ "-" +:+ state)
     ∧ resp r1 = Response 200 (JObj [("report", data ent); ("cached", JBool false)])
     ∧ Js.truthy (Some (data ent)) = true ∧ timestamp ent = now_store w
     ∧ cache_after r1 = <[k := ent]> cache).
Proof.
  intros r0 r1; subst r0 r1. repeat apply conj.
  - destruct (POST_run cache e req w)
      as [[Hc [He | (_ & _ & loc & He)]] | (body & loc & k & rep & _ & _ & _ & _ & Hr & _)].
    + by rewrite Hc, He.
    + by rewrite Hc, He.
    + by rewrite Hr.
  - intros k ent Hin.
    destruct (POST_run cache e req w)
      as [[Hc [He | (_ & _ & loc & He)]]
         | (body & loc & k' & rep & -> & Hloc & _ & Ht & Hr & Hc & He)];
      rewrite He in Hin; cbn in Hin.
    + done.
    + by destruct Hin as [[=]|[]].
    + destruct Hin as [[=] | [[= <- <-] | []]]. repeat split; try done.
      exists body. split; [done|]. unfold cache_key. by rewrite Hloc.
  - destruct (POST1_run cache e req w)
      as [[Hc [He | (_ & _ & c & s & He)]] | (body & c & s & rep & _ & _ & _ & _ & Hr & _)].
    + by rewrite Hc, He.
    + by rewrite Hc, He.
    + by rewrite Hr.
  - intros k ent Hin.
    destruct (POST1_run cache e req w)
      as [[Hc [He | (_ & _ & c & s & He)]]
         | (body & c & s & rep & -> & Hp & _ & Ht & Hr & Hc & He)];
      rewrite He in Hin; cbn in Hin.
    + done.
    + by destruct Hin as [[=]|[]].
    + destruct Hin as [[=] | [[= <- <-] | []]]. repeat split; try done.
      by exists body, c, s.
Qed.

Lemma only_success_is_cached_witness :
  cache_after (Part000.POST Sample.austin_at_0 Sample.configured (Some Sample.austin)
                            (Sample.answering 900000 503 BodyNotJson))
  = Sample.austin_at_0
  ∧ cache_after (Part000.POST ∅ Sample.configured (Some Sample.austin)
                              (Sample.succeeding 0))
    = <["austin-TX" := Entry Sample.sunny 800]> ∅.
Proof.
  split.
  - destruct (only_success_is_cached Sample.austin_at_0 Sample.configured
                (Some Sample.austin) (Sample.answering 900000 503 BodyNotJson))
      as (H & _).
    apply H. by vm_compute.
  - destruct (only_success_is_cached ∅ Sample.configured (Some Sample.austin)
                (Sample.succeeding 0)) as (_ & H & _).
    apply (H "austin-TX" (Entry Sample.sunny 800)). right. by left.
Defined.

(** X4. After a successful miss, a second request under the same key,
    made less than 15 minutes after the write, gets the same report with
    [cached: true]; it makes no upstream call, whatever the credential and
    the upstream service have become, and leaves the cache as it is. *)
Theorem second_request_served_from_cache cache e w body location k :
  reaches_upstream cache e (Some body) w location k →
  status (resp (Part000.POST cache e (Some body) w)) = 200 →
  ∃ report,
    resp (Part000.POST cache e (Some body) w)
    = Response 200 (JObj [("report", report); ("cached", JBool false)])
    ∧ ∀ e' w' body',
        cache_key body' = Some k →
        now_lookup w' - now_store w < 15 * 60 * 1000 →
        Part000.POST (cache_after (Part000.POST cache e (Some body) w)) e' (Some body') w'
        = Run (Response 200 (JObj [("report", report); ("cached", JBool true)]))
              (cache_after (Part000.POST cache e (Some body) w)) [].
Proof.
  intros Hreach Hok.
  pose proof Hreach as (body0 & [= <-] & Hloc & Hf & Hk).
  destruct (POST_run cache e (Some body) w)
    as [[Hc [He | (_ & Hno & _)]]
       | (body1 & loc1 & k1 & report & [= <-] & Hloc1 & _ & _ & Hr & Hc & _)].
  - exfalso. rewrite (POST_fetch _ _ _ _ _ _ Hreach) in He. cbv zeta in He.
    repeat case_match; discriminate He.
  - done.
  - rewrite Hloc in Hloc1. injection Hloc1 as <- <-.
    exists report. split; [done|]. intros e' w' body' Hkey Hlt. rewrite Hc.
    unfold cache_key in Hkey.
    destruct (Part000.locate body') as [|[location' k']] eqn:Hloc'; [done|].
    injection Hkey as ->.
    apply (POST_hit _ _ _ _ location' k); [done|].
    apply (fresh_hit _ _ _ _ (Entry report (now_store w)));
      [apply lookup_insert_eq | done].
Qed.

Lemma second_request_served_from_cache_witness :
  Part000.POST (cache_after (Part000.POST ∅ Sample.configured (Some Sample.austin)
                                          (Sample.succeeding 0)))
               Sample.unconfigured
               (Some (JObj [("city", JStr "AUSTIN"); ("state", JStr "Tx")]))
               (Sample.timing_out 900799)
  = Run (Response 200 (JObj [("report", Sample.sunny); ("cached", JBool true)]))
        (cache_after (Part000.POST ∅ Sample.configured (Some Sample.austin)
                                   (Sample.succeeding 0))) [].
Proof.
  destruct (second_request_served_from_cache ∅ Sample.configured (Sample.succeeding 0)
              Sample.austin "Austin, TX" "austin-TX") as (report & Hr & Hnext).
  { exists Sample.austin. by repeat split. }
  { reflexivity. }
  injection Hr as <-.
  apply Hnext; [reflexivity | simpl; lia].
Defined.

(** X5. A request changes no cache entry but the one under its own key,
    and removes none: in both versions of the weather route an entry that
    differs after the request is the entry of the request's key. *)
Theorem request_touches_only_its_key cache e req w k' :
  (cache_after (Part000.POST cache e req w) !! k' ≠ cache !! k' →
     ∃ body, req = Some body ∧ cache_key body = Some k') ∧
  (cache_after (Part001.POST cache e req w) !! k' ≠ cache !! k' →
     ∃ body city state,
       req = Some body ∧ Part001.requestSchema_parse body = inr (city, state)
       ∧ k' = Str.toLowerCase city +:+ "-" +:+ state) ∧
  (is_Some (cache !! k') →
     is_Some (cache_after (Part000.POST cache e req w) !! k')
     ∧ is_Some (cache_after (Part001.POST cache e req w) !! k')).
Proof.
  repeat apply conj.
  - destruct (POST_run cache e req w)
      as [[Hc _] | (body & loc & k & report & -> & Hloc & _ & _ & _ & Hc & _)];
      rewrite Hc; [done|].
    rewrite lookup_insert. case_decide as Hk; [|done]. subst k'.
    intros _. exists body. split; [done|]. unfold cache_key. by rewrite Hloc.
  - destruct (POST1_run cache e req w)
      as [[Hc _] | (body & c & s & report & -> & Hp & _ & _ & _ & Hc & _)];
      rewrite Hc; [done|].
    rewrite lookup_insert. case_decide as Hk; [|done]. subst k'.
    intros _. by exists body, c, s.
  - intros Hsome. split.
    + destruct (POST_run cache e req w)
        as [[Hc _] | (body & loc & k & report & _ & _ & _ & _ & _ & Hc & _)];
        rewrite Hc; [done|].
      rewrite lookup_insert. by case_decide.
    + destruct (POST1_run cache e req w)
        as [[Hc _] | (body & c & s & report & _ & _ & _ & _ & _ & Hc & _)];
        rewrite Hc; [done|].
      rewrite lookup_insert. by case_decide.
Qed.

Lemma request_touches_only_its_key_witness :
  is_Some (cache_after (Part000.POST Sample.austin_at_0 Sample.configured
                                     (Some Sample.denver_80202) (Sample.succeeding 0))
           !! "austin-TX").
Proof.
  destruct (request_touches_only_its_key Sample.austin_at_0 Sample.configured
              (Some Sample.denver_80202) (Sample.succeeding 0) "austin-TX")
    as (_ & _ & H).
  apply H. by eexists.
Defined.

Lemma key_configured e :
  key_missing e = false →
  ∃ key, OPENROUTER_API_KEY e = Some key ∧ key ≠ ""
       ∧ key ≠ "your_openrouter_api_key_here".
Proof.
  unfold key_missing. destruct (OPENROUTER_API_KEY e) as [key|]; [|done].
  intros [Hne Hph]%orb_false_elim. exists key. repeat split.
  - by intros ->.
  - intros ->. by vm_compute in Hph.
Qed.

End WeatherCache.

(** ** Entries and their time to live *)

Section ServedCaches.





End ServedCaches.

Section SuggestCache.

Variable JSON_parse : string → option json.
Implicit Types (cache : gmap string (entry (list string))) (e : env) (w : world).


(** X7. A suggestion request changes no cache entry but the one under its
    own lower-cased query, and removes none. *)
Theorem suggestion_touches_only_its_key cache e param w k' :
  (cache_after (Suggest.GET JSON_parse cache e param w) !! k' ≠ cache !! k' →
     ∃ p, param = Some p ∧ k' = Str.toLowerCase (Str.trim p)) ∧
  (is_Some (cache !! k') →
     is_Some (cache_after (Suggest.GET JSON_parse cache e param w) !! k')).
Proof.
  destruct (GET_cases JSON_parse cache e param w) as [[l Hl] | [q Hq]].
  { rewrite Hl. by split. }
  rewrite (GET_fetch _ _ _ _ _ _ Hq). cbv zeta.
  destruct (upstream_array JSON_parse w); cbn [cache_after]; [|by split].
  rewrite lookup_insert. destruct Hq as (p & -> & -> & _).
  case_decide as Hk; [|by split]. split; [|done]. intros _. by exists p.
Qed.

End SuggestCache.

Section Credential.

Variable JSON_parse : string → option json.

(** X8. No handler calls the upstream service without a credential: every
    request sent upstream carries as bearer token the configured key, which
    is neither empty nor the placeholder, and a time-out of 30 seconds for
    a report and of 5 seconds for suggestions; the suggestion request
    carries the trimmed query as the user's message. *)
Theorem upstream_calls_carry_the_key (wcache : gmap string (entry json))
    (scache : gmap string (entry (list string))) e req param w rq :
  (In (Fetch rq) (effects (Part000.POST wcache e req w))
   ∨ In (Fetch rq) (effects (Part001.POST wcache e req w)) →
     timeout_ms rq = 30000
     ∧ ∃ key, OPENROUTER_API_KEY e = Some key ∧ key ≠ ""
            ∧ key ≠ "your_openrouter_api_key_here"
            ∧ authorization rq = "Bearer " +:+ key) ∧
  (In (Fetch rq) (effects (Suggest.GET JSON_parse scache e param w)) →
     timeout_ms rq = 5000
     ∧ (∃ p, param = Some p ∧ user_content rq = Str.trim p)
     ∧ ∃ key, OPENROUTER_API_KEY e = Some key ∧ key ≠ ""
            ∧ key ≠ "your_openrouter_api_key_here"
            ∧ authorization rq = "Bearer " +:+ key).
Proof.
  assert (Hbearer : ∀ r : fetch_request,
            key_missing e = false →
            authorization r = "Bearer " +:+ default "" (OPENROUTER_API_KEY e) →
            ∃ key, OPENROUTER_API_KEY e = Some key ∧ key ≠ ""
                 ∧ key ≠ "your_openrouter_api_key_here"
                 ∧ authorization r = "Bearer " +:+ key).
  { intros r (key & Hkey & Hne & Hph)%key_configured Ha. exists key.
    rewrite Ha, Hkey. by repeat split. }
  split.
  - intros [Hin|Hin].
    + destruct (POST_run wcache e req w)
        as [[_ [He | (Hk & _ & loc & He)]]
           | (body & loc & k & report & _ & _ & Hk & _ & _ & _ & He)];
        rewrite He in Hin; cbn in Hin.
      * done.
      * destruct Hin as [[= <-]|[]]. split; [done|]. by apply Hbearer.
      * destruct Hin as [[= <-]|[[=]|[]]]. split; [done|]. by apply Hbearer.
    + destruct (POST1_run wcache e req w)
        as [[_ [He | (Hk & _ & c & s & He)]]
           | (body & c & s & report & _ & _ & Hk & _ & _ & _ & He)];
        rewrite He in Hin; cbn in Hin.
      * done.
      * destruct Hin as [[= <-]|[]]. split; [done|]. by apply Hbearer.
      * destruct Hin as [[= <-]|[[=]|[]]]. split; [done|]. by apply Hbearer.
  - intros Hin.
    destruct (GET_cases JSON_parse scache e param w) as [[l Hl] | [q Hq]].
    { by rewrite Hl in Hin. }
    rewrite (GET_fetch _ _ _ _ _ _ Hq) in Hin. cbv zeta in Hin.
    destruct Hq as (p & -> & -> & _ & _ & Hk).
    assert (Hrq : rq = Suggest.request_for e (Str.trim p)).
    { destruct (upstream_array JSON_parse w); cbn in Hin.
      - by destruct Hin as [[= <-]|[[=]|[]]].
      - by destruct Hin as [[= <-]|[]]. }
    subst rq. split; [done|]. split; [by exists p|]. by apply Hbearer.
Qed.

End Credential.

Lemma upstream_calls_carry_the_key_witness :
  authorization (Part000.request_for Sample.configured "Austin, TX")
  = "Bearer sk-or-v1-0123456789".
Proof.
  destruct (upstream_calls_carry_the_key Sample.parse_table ∅ ∅ Sample.configured
              (Some Sample.austin) None (Sample.succeeding 0)
              (Part000.request_for Sample.configured "Austin, TX")) as [H _].
  destruct H as (_ & key & Hkey & _ & _ & Ha).
  { left. by left. }
  injection Hkey as <-. exact Ha.
Defined.


Lemma suggestion_touches_only_its_key_witness :
  is_Some (cache_after (Suggest.GET Sample.parse_table {[ "xq" := Entry [] 0 ]}
                                    Sample.configured (Some "den") Sample.fenced)
           !! "xq").
Proof.
  destruct (suggestion_touches_only_its_key Sample.parse_table {[ "xq" := Entry [] 0 ]}
              Sample.configured (Some "den") Sample.fenced "xq") as [_ H].
  apply H. by eexists.
Defined.

(** ** Code fences around the model's answer *)

Section CleanFacts.

Lemma rev_app_acc s : ∀ acc, String.rev_app s acc = String.rev_app s "" +:+ acc.
Proof.
  induction s as [|c s IH]; intros acc; cbn [String.rev_app]; [done|].
  rewrite (IH (String c acc)), (IH (String c "")). by rewrite app_assoc.
Qed.

Lemma rev_cons c s : String.rev (String c s) = String.rev s +:+ String c "".
Proof. unfold String.rev. cbn [String.rev_app]. apply rev_app_acc. Qed.

Lemma rev_app_distr s t : String.rev (s +:+ t) = String.rev t +:+ String.rev s.
Proof.
  induction s as [|c s IH]; cbn [String.append].
  - by rewrite app_nil_r.
  - by rewrite !rev_cons, IH, app_assoc.
Qed.

Lemma rev_involutive s : String.rev (String.rev s) = s.
Proof.
  induction s as [|c s IH]; [done|]. by rewrite rev_cons, rev_app_distr, IH.
Qed.

Lemma drop_while_all p s t :
  Str.all p s = true → Str.drop_while p (s +:+ t) = Str.drop_while p t.
Proof.
  induction s as [|c s IH]; [done|]. cbn [Str.all String.append Str.drop_while].
  intros [Hc Hs]%andb_prop. rewrite Hc. by apply IH.
Qed.

Lemma trimEnd_all_space s : Str.all Char.is_space s = true → Str.trimEnd s = "".
Proof.
  induction s as [|c s IH]; [done|]. cbn [Str.all Str.trimEnd].
  intros [Hc Hs]%andb_prop. by rewrite (IH Hs), Hc.
Qed.

Lemma trimEnd_app_space t trail :
  Str.all Char.is_space trail = true → Str.trimEnd (t +:+ trail) = Str.trimEnd t.
Proof.
  intros Hs. induction t as [|c t IH]; cbn [String.append Str.trimEnd].
  - by apply trimEnd_all_space.
  - by rewrite IH.
Qed.

Lemma starts_with_json_space c s :
  Char.is_space c = true → Str.starts_with "json" (String c s) = false.
Proof.
  intros H. destruct c as [[] [] [] [] [] [] [] []]; try discriminate H; reflexivity.
Qed.

(** A non-empty string that [trim] leaves alone starts with a character
    that is not white space, and [trimEnd] leaves it alone. *)
Lemma trimmed_ends t :
  Str.trim t = t → t ≠ "" →
  (∃ a r, t = String a r ∧ Char.is_space a = false) ∧ Str.trimEnd t = t.
Proof.
  intros Ht Hne. destruct t as [|a r]; [done|].
  pose proof (trim_head _ _ _ Ht) as Ha. split; [by eauto|].
  unfold Str.trim, Str.trimStart in Ht. cbn [Str.drop_while] in Ht.
  by rewrite Ha in Ht.
Qed.

(** X9. [clean] takes a fenced answer out of its fence: for a text that
    is trimmed and not empty, wrapped in an opening fence, tagged [json] or
    followed by white space, and a closing fence, with any white space
    inside the fences, the result is the text itself. A text that
    neither starts nor ends with a fence is only trimmed. *)
Theorem clean_unwraps_fence (tagged : bool) (lead t trail : string) :
  Str.trim t = t → t ≠ "" →
  Str.all Char.is_space lead = true → Str.all Char.is_space trail = true →
  tagged = true ∨ lead ≠ "" →
  Suggest.clean ("```" +:+ (if tagged then "json" else "") +:+ lead +:+ t +:+ trail
                       +:+ "```") = t
  ∧ ∀ s, Str.starts_with "```" s = false →
         Str.starts_with "```" (String.rev s) = false →
         Suggest.clean s = Str.trim s.
Proof.
  intros Ht Hne Hlead Htrail Htag.
  destruct (trimmed_ends _ Ht Hne) as [(a & r & Ea & Ha) Hend].
  split.
  - unfold Suggest.clean.
    assert (Hopen : Suggest.strip_open_fence
                      ("```" +:+ (if tagged then "json" else "") +:+ lead +:+ t +:+ trail
                             +:+ "```")
                    = t +:+ trail +:+ "```").
    { unfold Suggest.strip_open_fence.
      destruct tagged.
      - cbn [String.append Str.starts_with Ascii.eqb Bool.eqb andb Str.drop].
        rewrite (drop_while_all _ _ _ Hlead). rewrite Ea. cbn [String.append Str.drop_while].
        by rewrite Ha.
      - destruct Htag as [|Hl]; [done|]. destruct lead as [|c lead]; [done|].
        cbn [Str.all] in Hlead. apply andb_prop in Hlead as [Hc Hlead].
        change (Str.starts_with "```" ?x) with true. cbn [String.append Str.drop].
        rewrite (starts_with_json_space _ _ Hc).
        cbn [Str.drop_while].
        rewrite Hc, (drop_while_all _ _ _ Hlead). rewrite Ea.
        cbn [String.append Str.drop_while]. by rewrite Ha. }
    rewrite Hopen. unfold Suggest.strip_close_fence.
    replace (t +:+ trail +:+ "```") with ((t +:+ trail) +:+ "```") by apply app_assoc.
    rewrite rev_app_distr. change (String.rev "```") with "```".
    cbn [String.append Str.starts_with Ascii.eqb Bool.eqb andb Str.drop].
    rewrite rev_involutive.
    rewrite (trimEnd_app_space _ _ Htrail), Hend. exact Ht.
  - intros s H1 H2. unfold Suggest.clean, Suggest.strip_open_fence. rewrite H1.
    unfold Suggest.strip_close_fence. by rewrite H2.
Qed.

Lemma clean_unwraps_fence_witness :
  Suggest.clean Sample.den_fenced = Sample.den_array.
Proof.
  apply (clean_unwraps_fence true Sample.nl Sample.den_array Sample.nl);
    [reflexivity | done | reflexivity | reflexivity | by left].
Defined.

End CleanFacts.

(** * Further properties of the page *)

Section Keyboard.

Implicit Types (st : Page.state).

(** X10. With the suggestions shown, the arrow keys move the highlight
    around the list: from an index of the list, or from no highlight,
    ArrowDown goes to the next index and wraps to the first; from an index
    of the list ArrowUp goes to the previous one and wraps to the last,
    and from no highlight it goes to the last. Nothing else changes, and
    on an index of the list each key undoes the other. *)
Theorem arrows_cycle_through_suggestions st :
  Page.showSuggestions st = true →
  let n := Z.of_nat (length (Page.suggestions st)) in
  let i := Page.highlightIndex st in
  0 < n → -1 ≤ i < n →
  Page.handleKeyDown st Page.ArrowDown
  = Page.Handled (Page.setHighlightIndex st ((i + 1) mod n))
  ∧ Page.handleKeyDown st Page.ArrowUp
    = Page.Handled (Page.setHighlightIndex st (if i =? -1 then n - 1 else (i - 1) mod n))
  ∧ (0 ≤ i →
     ∀ down up,
       Page.handleKeyDown st Page.ArrowDown = Page.Handled down →
       Page.handleKeyDown st Page.ArrowUp = Page.Handled up →
       Page.handleKeyDown down Page.ArrowUp = Page.Handled st
       ∧ Page.handleKeyDown up Page.ArrowDown = Page.Handled st).
Proof.
  intros Hshow n i Hn Hi. subst n i.
  destruct st as [q sugg show loading hi city code zip]. cbn in *. subst show.
  set (n := Z.of_nat (length sugg)) in *.
  unfold Page.handleKeyDown, Page.setHighlightIndex. cbn.
  fold n. destruct (Z.eqb_spec n 0) as [|_]; [lia|]. cbn.
  assert (Hdown : (if hi <? n - 1 then hi + 1 else 0) = (hi + 1) mod n).
  { destruct (Z.ltb_spec hi (n - 1)).
    - by rewrite Z.mod_small by lia.
    - replace hi with (n - 1) by lia. replace (n - 1 + 1) with n by lia.
      by rewrite Z.mod_same by lia. }
  assert (Hup : (if 0 <? hi then hi - 1 else n - 1)
                = (if hi =? -1 then n - 1 else (hi - 1) mod n)).
  { destruct (Z.ltb_spec 0 hi), (Z.eqb_spec hi (-1)); try lia.
    - by rewrite Z.mod_small by lia.
    - replace hi with 0 by lia. replace (0 - 1) with (-1 * n + (n - 1)) by lia.
      rewrite Z.add_comm, Z.mod_add by lia. by rewrite Z.mod_small by lia. }
  rewrite Hdown, Hup. split; [done|]. split; [done|].
  intros Hpos down up [= <-] [= <-]. cbn. fold n.
  destruct (Z.eqb_spec n 0) as [|_]; [lia|]. cbn.
  destruct (Z.eqb_spec hi (-1)); [lia|]. rewrite <- Hdown.
  split; do 2 f_equal.
  - destruct (Z.ltb_spec hi (n - 1)).
    + destruct (Z.ltb_spec 0 (hi + 1)); lia.
    + cbn. lia.
  - assert (Hm : (hi - 1) mod n = if 0 <? hi then hi - 1 else n - 1)
      by (rewrite Hup; by destruct (Z.eqb_spec hi (-1))).
    rewrite Hm. destruct (Z.ltb_spec 0 hi).
    + destruct (Z.ltb_spec (hi - 1) (n - 1)); lia.
    + destruct (Z.ltb_spec (n - 1) (n - 1)); lia.
Qed.

Lemma arrows_cycle_through_suggestions_witness :
  Page.handleKeyDown
    (Page.State "den" ["Denver, CO"; "Dennis, MA"; "Denton, TX"] true false 2 "" "" "")
    Page.ArrowDown
  = Page.Handled
      (Page.State "den" ["Denver, CO"; "Dennis, MA"; "Denton, TX"] true false 0 "" "" "").
Proof.
  destruct (arrows_cycle_through_suggestions
              (Page.State "den" ["Denver, CO"; "Dennis, MA"; "Denton, TX"]
                          true false 2 "" "" "")) as [H _];
    [reflexivity | cbn; lia | cbn; lia | exact H].
Defined.

End Keyboard.

Section PageStates.

Implicit Types (st : Page.state).

Lemma state_zip_match_some s code zip :
  Page.state_zip_match s = Some (code, zip) →
  String.length code = 2%nat ∧ Str.all Char.is_upper code = true ∧ five_digits zip.
Proof.
  unfold Page.state_zip_match.
  destruct (Regex.test Page.state_zip_re s) eqn:Ht; [|done].
  apply test_lang, state_zip_shape in Ht as (code' & zip' & Hshape).
  pose proof (state_zip_match_groups _ _ _ Hshape) as Hg.
  unfold Page.state_zip_match in Hg.
  destruct (Regex.test Page.state_zip_re s); [|done].
  rewrite Hg. intros [= <- <-].
  destruct Hshape as (_ & _ & Hl & Hu & _ & _ & Hz). done.
Qed.

Lemma selectCity_invariant st s : page_invariant st → page_invariant (Page.selectCity st s).
Proof.
  intros (Hlo & Hhi & Hzip). unfold Page.selectCity.
  destruct (0 <? _).
  - destruct (Page.state_zip_match _) as [[code zip]|] eqn:Hm.
    + apply state_zip_match_some in Hm as (_ & _ & Hz).
      repeat split; cbn; [lia | | by right].
      destruct (Page.suggestions st); [by left | right; cbn; lia].
    + repeat split; cbn; [lia | | by left].
      destruct (Page.suggestions st); [by left | right; cbn; lia].
  - repeat split; cbn; [lia | | done].
    destruct (Page.suggestions st); [by left | right; cbn; lia].
Qed.

Lemma setShowSuggestions_invariant st b :
  page_invariant st → page_invariant (Page.setShowSuggestions st b).
Proof. by intros (? & ? & ?). Qed.

Lemma after_submit_invariant st : page_invariant st → page_invariant (Page.after_submit st).
Proof.
  intros H. unfold Page.after_submit.
  destruct (Page.submit st); [done | by apply setShowSuggestions_invariant..].
Qed.

(** With the invariant, the key handler finds the suggestion it selects. *)
Lemma handleKeyDown_invariant st k :
  page_invariant st →
  Page.handleKeyDown st k ≠ Page.Threw
  ∧ ∀ st', (Page.handleKeyDown st k = Page.Handled st'
            ∨ ∃ r, Page.handleKeyDown st k = Page.Submitted r st') →
           page_invariant st'.
Proof.
  intros Hinv. pose proof Hinv as (Hlo & Hhi & Hzip).
  unfold Page.handleKeyDown.
  destruct (negb (Page.showSuggestions st)
            || (Z.of_nat (length (Page.suggestions st)) =? 0)) eqn:Hidle.
  - destruct k; (split; [try done|]);
      try (intros st' [[= <-] | [r [=]]]; done).
    + by destruct (_ && _).
    + destruct (_ && _).
      * intros st' [[=] | [r [= _ <-]]]. by apply after_submit_invariant.
      * intros st' [[= <-] | [r [=]]]. done.
  - apply orb_false_elim in Hidle as [_ Hn%Z.eqb_neq].
    destruct Hhi as [Hnil | Hhi]; [rewrite Hnil in Hn; done|].
    assert (Hpos : 0 < Z.of_nat (length (Page.suggestions st))) by lia.
    set (n := Z.of_nat (length (Page.suggestions st))) in *.
    assert (Hsel : 0 ≤ Page.highlightIndex st →
              ∃ s, Page.select_at st (Page.highlightIndex st)
                   = Page.Handled (Page.selectCity st s)).
    { intros Hge. unfold Page.select_at.
      destruct (Page.suggestions st !! Z.to_nat (Page.highlightIndex st)) as [s|] eqn:Hl;
        [by eauto|].
      apply lookup_ge_None in Hl. lia. }
    destruct k.
    + split; [done|]. intros st' [[= <-] | [r [=]]].
      repeat split; cbn;
        [destruct (Z.ltb_spec (Page.highlightIndex st) (n - 1)); lia
        | right; fold n; destruct (Z.ltb_spec (Page.highlightIndex st) (n - 1)); lia
        | done].
    + split; [done|]. intros st' [[= <-] | [r [=]]].
      repeat split; cbn; [destruct (Z.ltb_spec 0 (Page.highlightIndex st)); lia
                         | right; fold n; destruct (Z.ltb_spec 0 (Page.highlightIndex st)); lia
                         | done].
    + destruct (Z.leb_spec 0 (Page.highlightIndex st)) as [Hge|].
      * destruct (Hsel Hge) as [s ->]. split; [done|].
        intros st' [[= <-] | [r [=]]]. by apply selectCity_invariant.
      * split; [done|]. by intros st' [[= <-] | [r [=]]].
    + split; [done|]. intros st' [[= <-] | [r [=]]].
      by apply setShowSuggestions_invariant.
    + destruct (Z.leb_spec 0 (Page.highlightIndex st)) as [Hge|].
      * destruct (Hsel Hge) as [s ->]. split; [done|].
        intros st' [[= <-] | [r [=]]]. by apply selectCity_invariant.
      * split; [done|]. by intros st' [[= <-] | [r [=]]].
    + split; [done|]. by intros st' [[= <-] | [r [=]]].
Qed.

Lemma step_invariant st ev st' :
  page_invariant st → Page.step st ev = Some st' → page_invariant st'.
Proof.
  intros Hinv. pose proof Hinv as (Hlo & Hhi & Hzip).
  destruct ev as [value|results| | |k|i| | |]; cbn [Page.step].
  - intros [= <-]. unfold Page.handleInputChange.
    destruct (_ <? 2); repeat split; cbn; try done; by left.
  - intros [= <-]. repeat split; cbn; [lia | | done].
    destruct results; [by left | right; cbn; lia].
  - intros [= <-]. repeat split; cbn; [done | by left | done].
  - by intros [= <-].
  - destruct (handleKeyDown_invariant st k Hinv) as [_ Hk].
    destruct (Page.handleKeyDown st k) as [st1|r st1|] eqn:Hkey; [| |done];
      intros [= <-]; apply Hk; eauto.
  - destruct (Page.showSuggestions st); [|by intros [= <-]].
    destruct (Page.suggestions st !! i); intros [= <-]; [|done].
    by apply selectCity_invariant.
  - intros [= <-]. unfold Page.onFocus.
    destruct (Nat.eqb _ 0); [done | by apply setShowSuggestions_invariant].
  - intros [= <-]. by apply setShowSuggestions_invariant.
  - intros [= <-]. by apply after_submit_invariant.
Qed.

Lemma reachable_invariant st : Page.reachable st → page_invariant st.
Proof.
  induction 1 as [|st ev st' _ IH Hstep].
  - repeat split; cbn; [lia | by left | by left].
  - by apply (step_invariant st ev).
Qed.

(** X11. In every state the component reaches from its initial state,
    through typing, arriving, failing or aborted suggestions, keys,
    clicks, focus and submissions in any order, the highlighted index is
    at least [-1] and, unless the list of suggestions is empty, below its
    length. So no key makes [handleKeyDown] select a suggestion that is
    not there (with an empty list the handler returns before it looks at
    the index), and the key leads to a state of the same kind. *)
Theorem keys_never_select_a_missing_suggestion st k :
  Page.reachable st →
  -1 ≤ Page.highlightIndex st
  ∧ (Page.suggestions st ≠ [] →
     Page.highlightIndex st < Z.of_nat (length (Page.suggestions st)))
  ∧ Page.handleKeyDown st k ≠ Page.Threw
  ∧ ∃ st', Page.step st (Page.Pressed k) = Some st' ∧ Page.reachable st'.
Proof.
  intros Hreach. pose proof (reachable_invariant _ Hreach) as Hinv.
  destruct (handleKeyDown_invariant st k Hinv) as [Hno _].
  destruct Hinv as (Hlo & Hhi & _).
  split; [done|]. split; [by destruct Hhi|]. split; [done|].
  destruct (Page.step st (Page.Pressed k)) as [st'|] eqn:Hstep.
  - exists st'. split; [done|]. by apply (Page.reachable_step st (Page.Pressed k)).
  - cbn in Hstep. by destruct (Page.handleKeyDown st k).
Qed.

Lemma keys_never_select_a_missing_suggestion_witness :
  Page.handleKeyDown
    (Page.suggestionsReceived (Page.handleInputChange Page.initial "den")
                              ["Denver, CO"; "Denton, TX"])
    Page.Enter ≠ Page.Threw.
Proof.
  apply (keys_never_select_a_missing_suggestion _ Page.Enter).
  apply (Page.reachable_step (Page.handleInputChange Page.initial "den")
           (Page.Received ["Denver, CO"; "Denton, TX"])); [|reflexivity].
  apply (Page.reachable_step Page.initial (Page.Typed "den")); [|reflexivity].
  apply Page.reachable_initial.
Defined.





End PageStates.

Section Selection.

Implicit Types (st : Page.state).

Lemma space_not_comma c : Char.is_space c = true → negb (Char.is_char "," c) = true.
Proof. by_cases c. Qed.

Lemma upper_not_comma c : Char.is_upper c = true → negb (Char.is_char "," c) = true.
Proof. by_cases c. Qed.

Lemma digit_not_comma c : Char.is_digit c = true → negb (Char.is_char "," c) = true.
Proof. by_cases c. Qed.

Lemma all_impl (p q : ascii → bool) s :
  (∀ c, p c = true → q c = true) → Str.all p s = true → Str.all q s = true.
Proof.
  intros Hpq. induction s as [|c s IH]; [done|]. cbn [Str.all].
  intros [Hc Hs]%andb_prop. by rewrite (Hpq _ Hc), IH.
Qed.

Lemma trimEnd_nonspace t :
  Str.all (λ c, negb (Char.is_space c)) t = true → Str.trimEnd t = t.
Proof.
  induction t as [|c t IH]; [done|]. cbn [Str.all Str.trimEnd].
  intros [Hc Ht]%andb_prop. rewrite (IH Ht).
  destruct t; [|done]. apply negb_true_iff in Hc. by rewrite Hc.
Qed.

Lemma trimEnd_app_keep s t :
  Str.trimEnd t ≠ "" → Str.trimEnd (s +:+ t) = s +:+ Str.trimEnd t.
Proof.
  intros Hne. induction s as [|c s IH]; [done|]. cbn [String.append Str.trimEnd].
  rewrite IH. destruct (Str.trimEnd t); [done|]. by destruct s.
Qed.

Lemma slices_at_comma left right :
  Str.slice_to (Str.len left) (left +:+ String ","%char right) = left
  ∧ Str.slice_from (Str.len left + 1) (left +:+ String ","%char right) = right.
Proof.
  unfold Str.slice_to, Str.slice_from, Str.len.
  replace (Z.to_nat (Z.of_nat (String.length left) + 1))
    with (S (String.length left)) by lia.
  rewrite Nat2Z.id, take_app. split; [done|].
  induction left as [|d left IH]; [by destruct right | exact IH].
Qed.

(** The trimmed text after the comma of a well-shaped suggestion. *)
Lemma trim_after_comma ws code gap zip :
  Str.all Char.is_space ws = true →
  String.length code = 2%nat → Str.all Char.is_upper code = true →
  zip = "" ∧ gap = "" ∨ five_digits zip ∧ gap ≠ "" →
  Str.trim (ws +:+ code +:+ gap +:+ zip) = code +:+ gap +:+ zip.
Proof.
  intros Hws Hl Hu Hzip. unfold Str.trim, Str.trimStart.
  rewrite (drop_while_all _ _ _ Hws).
  assert (Hcode : Str.trimEnd code = code).
  { apply trimEnd_nonspace. apply (all_impl Char.is_upper); [|done].
    intros c Hc. by rewrite (upper_not_space _ Hc). }
  assert (Hstart : Str.drop_while Char.is_space (code +:+ gap +:+ zip)
                   = code +:+ gap +:+ zip).
  { destruct code as [|a r]; [done|]. cbn [Str.all] in Hu.
    apply andb_prop in Hu as [Ha _]. cbn [String.append Str.drop_while].
    by rewrite (upper_not_space _ Ha). }
  rewrite Hstart.
  destruct Hzip as [[-> ->] | [[Hz Hd] Hg]].
  - by rewrite !app_nil_r.
  - assert (Hzend : Str.trimEnd zip = zip).
    { apply trimEnd_nonspace. apply (all_impl Char.is_digit); [|done].
      intros c Hc. by rewrite (digit_not_space _ Hc). }
    assert (Hzne : zip ≠ "") by (by destruct zip).
    assert (Hgz : Str.trimEnd (gap +:+ zip) = gap +:+ zip)
      by (by rewrite trimEnd_app_keep, Hzend by (by rewrite Hzend)).
    rewrite trimEnd_app_keep, Hgz; [done|].
    rewrite Hgz. by destruct gap.
Qed.

(** X13. Selecting a suggestion of the shape the suggestion route lets
    through ([City, ST] or [City, ST ZIP]) always parses it: the selection
    becomes the trimmed city, the two-letter code and the five-digit zip
    (or no zip), the query becomes the suggestion and the list is hidden.
    Unless the city is blank, submitting then posts exactly that city,
    state and zip. *)
Theorem selecting_a_shaped_suggestion st s :
  Regex.lang Suggest.suggestion_re s →
  ∃ city ws code gap zip,
    s = city +:+ "," +:+ ws +:+ code +:+ gap +:+ zip
    ∧ Str.all Char.is_space ws = true ∧ Str.all Char.is_space gap = true
    ∧ String.length code = 2%nat ∧ Str.all Char.is_upper code = true
    ∧ (zip = "" ∧ gap = "" ∨ five_digits zip ∧ gap ≠ "")
    ∧ Page.selectCity st s
      = Page.State s (Page.suggestions st) false false (-1) (Str.trim city) code zip
    ∧ (Str.trim city ≠ "" →
       Page.submit (Page.selectCity st s)
       = Page.Sent (JObj ([("city", JStr (Str.trim city)); ("state", JStr code)]
                          ++ (if Str.is_empty zip then [] else [("zip", JStr zip)])))).
Proof.
  intros (city & ws & code & rest & -> & Hne & _ & Hws & Hl & Hu & Hrest)%suggestion_shape.
  assert (Hgz : ∃ gap zip, rest = gap +:+ zip ∧ Str.all Char.is_space gap = true
                           ∧ (zip = "" ∧ gap = "" ∨ five_digits zip ∧ gap ≠ "")).
  { destruct Hrest as [-> | (gap & zip & -> & Hg & Hgs & Hz & Hd)].
    - exists "", "". repeat split. by left.
    - exists gap, zip. repeat split; [done|]. right. by repeat split. }
  destruct Hgz as (gap & zip & -> & Hgs & Hzip).
  exists city, ws, code, gap, zip.
  split; [done|]. split; [done|]. split; [done|]. split; [done|]. split; [done|].
  split; [done|].
  assert (Hsel : Page.selectCity st (city +:+ "," +:+ ws +:+ code +:+ gap +:+ zip)
                 = Page.State (city +:+ "," +:+ ws +:+ code +:+ gap +:+ zip)
                              (Page.suggestions st) false false (-1)
                              (Str.trim city) code zip).
  { unfold Page.selectCity.
    change (city +:+ "," +:+ ws +:+ code +:+ gap +:+ zip)
      with (city +:+ String ","%char (ws +:+ code +:+ gap +:+ zip)).
    assert (Hno : no_comma (ws +:+ code +:+ gap +:+ zip)).
    { unfold no_comma. rewrite !all_app.
      rewrite (all_impl _ _ _ space_not_comma Hws), (all_impl _ _ _ upper_not_comma Hu),
        (all_impl _ _ _ space_not_comma Hgs).
      destruct Hzip as [[-> _] | [[_ Hd] _]]; [done|].
      by rewrite (all_impl _ _ _ digit_not_comma Hd). }
    rewrite (lastIndexOf_split _ _ Hno).
    pose proof (nonempty_length _ Hne) as Hpos.
    destruct (Z.ltb_spec 0 (Str.len city)); [|lia].
    destruct (slices_at_comma city (ws +:+ code +:+ gap +:+ zip)) as [-> ->].
    rewrite (trim_after_comma _ _ _ _ Hws Hl Hu Hzip).
    destruct Hzip as [[-> ->] | [Hfive Hg]].
    - rewrite !app_nil_r. rewrite state_zip_match_none; [done|].
      intros (c' & z' & g' & Heq & Hc' & _ & Hg' & _ & [Hz' _]).
      apply (f_equal String.length) in Heq. rewrite !length_app in Heq.
      lia.
    - rewrite (state_zip_match_groups _ code zip); [done|].
      exists gap. do 5 (split; [done|]). exact Hfive. }
  rewrite Hsel. split; [done|]. intros Hcity.
  unfold Page.submit, Page.handleSubmit, Page.parse. cbn.
  destruct (Str.trim city) as [|a r] eqn:Ec; [done|].
  rewrite (length_nonempty _ _ Hl). cbn. unfold Page.requestBody. cbn.
  by rewrite (length_nonempty _ _ Hl).
Qed.

Lemma selecting_a_shaped_suggestion_witness :
  ∃ city ws code gap zip,
    "Denver, CO 80202" = city +:+ "," +:+ ws +:+ code +:+ gap +:+ zip
    ∧ Str.all Char.is_space ws = true ∧ Str.all Char.is_space gap = true
    ∧ String.length code = 2%nat ∧ Str.all Char.is_upper code = true
    ∧ (zip = "" ∧ gap = "" ∨ five_digits zip ∧ gap ≠ "")
    ∧ Page.selectCity Page.initial "Denver, CO 80202"
      = Page.State "Denver, CO 80202" [] false false (-1) (Str.trim city) code zip
    ∧ (Str.trim city ≠ "" →
       Page.submit (Page.selectCity Page.initial "Denver, CO 80202")
       = Page.Sent (JObj ([("city", JStr (Str.trim city)); ("state", JStr code)]
                          ++ (if Str.is_empty zip then [] else [("zip", JStr zip)])))).
Proof.
  apply (selecting_a_shaped_suggestion Page.initial "Denver, CO 80202").
  by apply test_lang.
Defined.

End Selection.

(** ** Highlighting the query in a suggestion *)

Section Highlight.

Lemma starts_with_app n s : Str.starts_with n (n +:+ s) = true.
Proof.
  induction n as [|c n IH]; [done|]. cbn [String.append Str.starts_with].
  by rewrite Ascii.eqb_refl, IH.
Qed.

Lemma starts_with_take n : ∀ s,
  Str.starts_with n s = true → Str.take (String.length n) s = n.
Proof.
  induction n as [|c n IH]; intros [|d s]; cbn [Str.starts_with String.length Str.take];
    try done.
  intros [->%Ascii.eqb_eq Hs]%andb_prop. by rewrite (IH _ Hs).
Qed.

Lemma indexOf_found needle s : ∀ i,
  Str.indexOf needle s = i → 0 ≤ i →
  Str.starts_with needle (Str.drop (Z.to_nat i) s) = true.
Proof.
  induction s as [|c s IH]; intros i; cbn [Str.indexOf].
  - destruct (Str.starts_with needle "") eqn:Hs; intros <-; [by intros _ | lia].
  - destruct (Str.starts_with needle (String c s)) eqn:Hs; [by intros <- _|].
    destruct (Z.leb_spec 0 (Str.indexOf needle s)) as [Hpos|]; intros <-; [|lia].
    intros _. replace (Z.to_nat (Str.indexOf needle s + 1))
      with (S (Z.to_nat (Str.indexOf needle s))) by lia.
    cbn [Str.drop]. by apply IH.
Qed.

Lemma indexOf_starts needle s :
  Str.starts_with needle s = true → Str.indexOf needle s = 0.
Proof. intros H. destruct s; cbn [Str.indexOf]; by rewrite H. Qed.

Lemma indexOf_range needle s : -1 ≤ Str.indexOf needle s.
Proof.
  induction s as [|d s IH]; cbn [Str.indexOf].
  - destruct (Str.starts_with needle ""); lia.
  - destruct (Str.starts_with needle _); [lia|].
    destruct (Z.leb_spec 0 (Str.indexOf needle s)); lia.
Qed.

(** The index found is that of the first occurrence. *)
Lemma indexOf_first needle pre : ∀ post,
  0 ≤ Str.indexOf needle (pre +:+ needle +:+ post) ≤ Str.len pre.
Proof.
  unfold Str.len. induction pre as [|c pre IH]; intros post.
  - cbn [String.append]. rewrite indexOf_starts by apply starts_with_app. cbn. lia.
  - cbn [String.append Str.indexOf String.length].
    destruct (Str.starts_with needle _); [lia|].
    specialize (IH post).
    destruct (Z.leb_spec 0 (Str.indexOf needle (pre +:+ needle +:+ post))); lia.
Qed.

Lemma map_take f n : ∀ s, Str.map f (Str.take n s) = Str.take n (Str.map f s).
Proof. induction n as [|n IH]; intros [|c s]; cbn; try done. by rewrite IH. Qed.

Lemma map_drop f n : ∀ s, Str.map f (Str.drop n s) = Str.drop n (Str.map f s).
Proof. induction n as [|n IH]; intros [|c s]; cbn; try done. Qed.

Lemma drop_drop n m : ∀ s, Str.drop m (Str.drop n s) = Str.drop (n + m) s.
Proof.
  induction n as [|n IH]; intros s; [done|]. destruct s as [|c s]; cbn [Str.drop Nat.add].
  - by destruct m.
  - apply IH.
Qed.

Lemma take_length n : ∀ s, (String.length (Str.take n s) ≤ n)%nat.
Proof. induction n as [|n IH]; intros [|c s]; cbn; try lia. specialize (IH s). lia. Qed.

(** X14. [highlightMatch] only cuts the text: its pieces, put together,
    are the text. A highlighted piece is an occurrence of the query up to
    letter case, and whenever the text holds such an occurrence and the
    query is not empty, the first one is highlighted. *)
Theorem highlight_keeps_the_text text q :
  shown_text (Page.highlightMatch text q) = text
  ∧ (∀ h, In (Page.Highlighted h) (Page.highlightMatch text q) →
       q ≠ "" ∧ Str.eq_nocase h q = true)
  ∧ (q ≠ "" →
     ∀ pre mid post,
       text = pre +:+ mid +:+ post → Str.eq_nocase mid q = true →
       ∃ pre' h post',
         Page.highlightMatch text q
         = [Page.Plain pre'; Page.Highlighted h; Page.Plain post']
         ∧ (String.length pre' ≤ String.length pre)%nat).
Proof.
  unfold Page.highlightMatch.
  destruct q as [|c q]; cbn [Str.is_empty].
  { cbn. rewrite app_nil_r. split; [done|]. split; [|done].
    by intros h [[=]|[]]. }
  remember (String c q) as q' eqn:Hq.
  assert (Hne : q' ≠ "") by (by subst).
  clear c q Hq. rename q' into q.
  remember (Str.toLowerCase q) as needle eqn:Hneedle.
  assert (Hlen : String.length needle = String.length q)
    by (subst; apply map_length).
  assert (Hocc : ∀ pre mid post,
    text = pre +:+ mid +:+ post → Str.eq_nocase mid q = true →
    0 ≤ Str.indexOf needle (Str.toLowerCase text) ≤ Str.len pre).
  { intros pre mid post -> Hmid%eq_nocase_toLowerCase.
    unfold Str.toLowerCase in *. rewrite !map_app, Hmid, <- Hneedle.
    unfold Str.len. rewrite <- (map_length Char.to_lower pre).
    apply indexOf_first. }
  pose proof (indexOf_range needle (Str.toLowerCase text)) as Hrange.
  pose proof (indexOf_found needle (Str.toLowerCase text) _ eq_refl) as Hfound.
  destruct (Z.eqb_spec (Str.indexOf needle (Str.toLowerCase text)) (-1)) as [Hnone|Hsome].
  - cbn. rewrite app_nil_r. split; [done|]. split; [by intros h [[=]|[]]|].
    intros _ pre mid post Htext Hmid. specialize (Hocc _ _ _ Htext Hmid). lia.
  - remember (Str.indexOf needle (Str.toLowerCase text)) as idx eqn:Hidx.
    assert (Hpos : 0 ≤ idx) by lia. specialize (Hfound Hpos).
    unfold Str.slice_to, Str.slice, Str.slice_from, Str.len.
    replace (Z.to_nat (idx + Z.of_nat (String.length q) - idx))
      with (String.length q) by lia.
    replace (Z.to_nat (idx + Z.of_nat (String.length q)))
      with (Z.to_nat idx + String.length q)%nat by lia.
    rewrite <- drop_drop.
    split; [|split].
    + cbn [shown_text foldr Page.segment_text]. rewrite app_nil_r.
      by rewrite !take_drop.
    + intros h [[=]|[[= <-]|[[=]|[]]]]. split; [done|].
      apply eq_nocase_of_lower. rewrite <- Hneedle.
      unfold Str.toLowerCase in *. rewrite map_take, map_drop, <- Hlen.
      by apply starts_with_take.
    + intros _ pre mid post Htext Hmid. specialize (Hocc _ _ _ Htext Hmid).
      eexists _, _, _. split; [done|].
      pose proof (take_length (Z.to_nat idx) text). unfold Str.len in Hocc. lia.
Qed.

Lemma highlight_keeps_the_text_witness :
  ∃ pre h post,
    Page.highlightMatch "New Denver, CO" "den"
    = [Page.Plain pre; Page.Highlighted h; Page.Plain post]
    ∧ (String.length pre ≤ 4)%nat.
Proof.
  apply (proj2 (proj2 (highlight_keeps_the_text "New Denver, CO" "den")) ltac:(done)
           "New " "Den" "ver, CO"); reflexivity.
Defined.

End Highlight.

(** ** From the text box to the route *)

Section PageToRoute.

(** What the route makes of a body with a city and a state, as
    [requestBody] builds it. *)
Lemma locate_city_state city code zip :
  city ≠ "" → Str.toUpperCase code = Some code →
  Part000.locate
    (JObj ([("city", JStr city); ("state", JStr code)]
           ++ (if Str.is_empty zip then [] else [("zip", JStr zip)])))
  = if (Str.len city <=? 100) && US_STATES_has code
    then inr (city +:+ ", " +:+ code +:+ zip_suffix " " (Some zip),
              Str.toLowerCase city +:+ "-" +:+ code +:+ zip_suffix "-" (Some zip))
    else inl ZodError.
Proof.
  intros Hcity Hcode. pose proof (nonempty_length _ Hcity) as Hlen.
  assert (Hne : Str.is_empty city = false) by (apply len_nonempty; lia).
  assert (H1 : (1 <=? Str.len city) = true) by (apply Z.leb_le; lia).
  unfold Part000.locate, Part000.cityStateSchema_parse, Js.prop.
  destruct zip as [|a zip]; cbn [Str.is_empty app zip_suffix].
  - change (Js.lookup "zip" _) with (@None json).
    change (Js.lookup "city" _) with (Some (JStr city)).
    change (Js.lookup "state" _) with (Some (JStr code)).
    cbn [Js.truthy andb]. rewrite Hcode, H1. cbn [andb].
    destruct (_ && _); [|done]. cbn. by rewrite !app_nil_r.
  - change (Js.lookup "zip" _) with (Some (JStr (String a zip))).
    change (Js.lookup "city" _) with (Some (JStr city)).
    change (Js.lookup "state" _) with (Some (JStr code)).
    cbn [Js.truthy Str.is_empty negb andb]. rewrite Hne, Hcode, H1. cbn [negb andb].
    destruct (_ && _); [|done]. done.
Qed.

(** X15. Typed text at the route. A body that [handleSubmit] posts for
    text typed into the box is one of two kinds. A zip of five digits on
    its own, which [locate] always accepts. Or a city that is not empty
    with a state of two characters (and maybe a zip of five digits), which
    [locate] accepts exactly when the city has at most 100 characters and
    the state is one of the 51 codes, and answers with a validation error
    otherwise: the page does not check the state, the route does. A body
    whose state has a code unit above 255 is posted with a city that is
    not empty and without a zip. *)
Theorem typed_text_at_the_route query :
  (∀ body,
     Page.submit_typed query = Page.Sent body →
     (∃ zip,
         body = JObj [("zip", JStr zip)] ∧ five_digits zip
         ∧ Part000.locate body = inr ("zip code " +:+ zip, "zip-" +:+ zip))
     ∨ (∃ city code zip,
         body = JObj ([("city", JStr city); ("state", JStr code)]
                      ++ (if Str.is_empty zip then [] else [("zip", JStr zip)]))
         ∧ city ≠ "" ∧ Str.len code = 2 ∧ (zip = "" ∨ five_digits zip)
         ∧ Part000.locate body
           = if (Str.len city <=? 100) && US_STATES_has code
             then inr (city +:+ ", " +:+ code +:+ zip_suffix " " (Some zip),
                       Str.toLowerCase city +:+ "-" +:+ code
                         +:+ zip_suffix "-" (Some zip))
             else inl ZodError))
  ∧ (∀ city zip,
       Page.submit_typed query = Page.SentWide city zip → city ≠ "" ∧ zip = "").
Proof.
  unfold Page.submit_typed, Page.handleSubmit.
  destruct (Regex.test zip_re (Str.trim query)) eqn:Hzip.
  { unfold Page.parse. cbn [Str.is_empty orb]. rewrite Hzip.
    apply zip_re_five_digits in Hzip. pose proof Hzip as [Hl Hd].
    unfold Page.requestBody. cbn [Str.is_empty negb andb].
    rewrite (length_nonempty _ _ Hl). cbn [negb].
    split; [|done].
    intros body [= <-]. left. exists (Str.trim query). split; [done|]. split; [done|].
    apply locate_complete. left. exists [("zip", JStr (Str.trim query))], (Str.trim query).
    by repeat split. }
  destruct (Z.ltb_spec 0 (Str.lastIndexOf ","%char (Str.trim query))) as [Hpos|Hneg].
  2:{ unfold Page.parse. cbn [Str.is_empty orb]. rewrite Hzip.
      destruct (Z.ltb_spec 0 (Str.lastIndexOf ","%char (Str.trim query))); [lia|].
      by cbn. }
  destruct (lastIndexOf_found (Str.trim query) _ eq_refl) as (Heq & Hlen & Hno); [lia|].
  set (left := Str.slice_to _ _) in *. set (right := Str.slice_from _ _) in *.
  assert (Hleft : left ≠ "").
  { intros E. rewrite E in Hlen. unfold Str.len in Hlen. simpl in Hlen. lia. }
  destruct (parse_typed_split query left right Hzip Heq Hno Hleft) as [Hcity ->].
  assert (Hc : Str.trim left ≠ "") by (intros E; by rewrite E in Hcity).
  destruct (Str.toUpperCase (Str.trim right)) as [after|] eqn:Hup.
  2:{ destruct (_ =? 2); [|done]. split; [done|]. by intros city zip [= <- <-]. }
  destruct (Page.state_zip_match _) as [[code zip]|] eqn:Hm.
  - apply state_zip_match_some in Hm as (Hl & Hu & Hfive).
    split; [|done].
    intros body [= <-]. right. exists (Str.trim left), code, zip.
    unfold Page.requestBody. rewrite Hcity, (length_nonempty _ _ Hl). cbn [negb andb].
    split; [done|]. split; [done|]. split; [unfold Str.len; lia|].
    split; [by right|]. apply locate_city_state; [done|]. by apply toUpperCase_upper.
  - destruct (Z.eqb_spec (Str.len after) 2) as [Hl|]; [|done].
    split; [|done].
    intros body [= <-]. right. exists (Str.trim left), after, "".
    unfold Page.requestBody. rewrite Hcity.
    rewrite (len_nonempty after) by lia. cbn [negb andb].
    split; [done|]. split; [done|]. split; [done|]. split; [by left|].
    apply locate_city_state; [done|]. by apply (toUpperCase_idem (Str.trim right)).
Qed.

Lemma typed_text_at_the_route_witness :
  (∃ zip,
      Sample.denver_80202 = JObj [("zip", JStr zip)] ∧ five_digits zip
      ∧ Part000.locate Sample.denver_80202 = inr ("zip code " +:+ zip, "zip-" +:+ zip))
  ∨ (∃ city code zip,
      Sample.denver_80202
      = JObj ([("city", JStr city); ("state", JStr code)]
              ++ (if Str.is_empty zip then [] else [("zip", JStr zip)]))
      ∧ city ≠ "" ∧ Str.len code = 2 ∧ (zip = "" ∨ five_digits zip)
      ∧ Part000.locate Sample.denver_80202
        = if (Str.len city <=? 100) && US_STATES_has code
          then inr (city +:+ ", " +:+ code +:+ zip_suffix " " (Some zip),
                    Str.toLowerCase city +:+ "-" +:+ code
                      +:+ zip_suffix "-" (Some zip))
          else inl ZodError).
Proof.
  apply (proj1 (typed_text_at_the_route "  Denver , co 80202 ")). reflexivity.
Defined.

End PageToRoute.

(** ** The first page and the first route *)

Section FirstVersion.

Lemma select_codes s :
  In s (fst <$> PageV1.US_STATES) ↔ In s US_STATES.
Proof.
  split.
  - intros H. apply US_STATES_has_In.
    unfold PageV1.US_STATES in H. cbn [fmap list_fmap fst In] in H.
    repeat (destruct H as [<-|H]; [by vm_compute|]). done.
  - intros H.
    assert (Hex : existsb (String.eqb s) (fst <$> PageV1.US_STATES) = true).
    { unfold US_STATES in H. cbn [In] in H.
      repeat (destruct H as [<-|H]; [by vm_compute|]). done. }
    apply existsb_exists in Hex as (x & Hx & ->%String.eqb_eq). exact Hx.
Qed.

Lemma state_code_upper s : In s US_STATES → Str.toUpperCase s = Some s.
Proof.
  unfold US_STATES. cbn [In]. intros H.
  repeat (destruct H as [<-|H]; [by vm_compute|]). done.
Qed.

(** X16. The form of the first page against the first route. The codes
    of the state menu are the 51 codes of the route. With a state taken
    from the menu, [handleSubmit] posts nothing exactly when the city is
    blank or no state is chosen; what it posts, the route accepts as the
    trimmed city and the chosen state, unless the trimmed city has more
    than 100 characters, the one check the page leaves to the route. *)
Theorem form_submission_at_the_route city state :
  In state PageV1.select_values →
  (∀ s, In s (fst <$> PageV1.US_STATES) ↔ In s US_STATES)
  ∧ match PageV1.handleSubmit city state with
    | None => Str.trim city = "" ∨ state = ""
    | Some body =>
        Str.trim city ≠ "" ∧ In state US_STATES
        ∧ Part001.requestSchema_parse body
          = if Str.len (Str.trim city) <=? 100
            then inr (Str.trim city, state)
            else inl ZodError
    end.
Proof.
  intros Hstate. split; [apply select_codes|].
  unfold PageV1.handleSubmit.
  destruct (Str.is_empty (Str.trim city)) eqn:Hc; cbn [orb].
  { left. by apply is_empty_true. }
  destruct (Str.is_empty state) eqn:Hs.
  { right. by apply is_empty_true. }
  destruct Hstate as [<-|Hin%select_codes]; [done|].
  assert (Hne : Str.trim city ≠ "") by (intros E; by rewrite E in Hc).
  split; [done|]. split; [done|].
  unfold Part001.requestSchema_parse.
  change (Js.lookup "city" _) with (Some (JStr (Str.trim city))).
  change (Js.lookup "state" _) with (Some (JStr state)).
  cbv beta iota zeta. rewrite (state_code_upper _ Hin).
  apply US_STATES_has_In in Hin. rewrite Hin, andb_true_r.
  pose proof (nonempty_length _ Hne).
  destruct (Z.leb_spec 1 (Str.len (Str.trim city))); [|lia]. done.
Qed.

Lemma form_submission_at_the_route_witness :
  (∀ s, In s (fst <$> PageV1.US_STATES) ↔ In s US_STATES)
  ∧ match PageV1.handleSubmit " Austin " "TX" with
    | None => Str.trim " Austin " = "" ∨ "TX" = ""
    | Some body =>
        Str.trim " Austin " ≠ "" ∧ In "TX" US_STATES
        ∧ Part001.requestSchema_parse body
          = if Str.len (Str.trim " Austin ") <=? 100
            then inr (Str.trim " Austin ", "TX")
            else inl ZodError
    end.
Proof.
  apply (form_submission_at_the_route " Austin " "TX").
  right. apply select_codes, US_STATES_has_In. reflexivity.
Defined.

End FirstVersion.

(** ** The answer of the route on the page *)

Section Answer.



End Answer.
